(** * elastic-builder: the bool query, the has_child query and their serialization

    A shallow embedding of

    - [src/queries/compound-queries/bool-query.js] (class [BoolQuery]),
    - the has_child query (class [HasChildQuery]),
    - the parts of [core] and of lodash those two classes call,
    - the direction check of [TermsAggregation.order], as far as its test
      ([test/aggregations-test/terms-agg.test.js]) and the specification fix it.

    JavaScript values are a tree-shaped inductive type; a plain object is an
    association list in property insertion order (the order in which
    [JSON.stringify], [_.mapValues] and [Object.keys] walk string keys that
    are not array indices; every key written by the embedded code is such a
    key).  A method is a computation over the state of its receiver [this];
    an exception keeps whatever was written to [this] before it was thrown.

    What [toJSON] reads and writes while it runs is stated on a store of
    objects (module [Heap]): values are primitives or references, a call
    allocates the cells of its document, and the trees are what the
    references of a store stand for. *)

From Stdlib Require Import String Ascii List ZArith Bool Lia.
Import ListNotations.
Local Open Scope string_scope.
Local Open Scope list_scope.

Set Warnings "-register-all".

(* ===================================================================== *)
(** ** Values *)
(* ===================================================================== *)

(** The class an instance was created from; it selects the [toJSON] that a
    call [obj.toJSON()] dispatches to. *)
Inductive qclass : Type :=
| BoolQueryC        (* new BoolQuery() *)
| HasChildQueryC    (* new HasChildQuery(qry, type) *)
| QueryC.           (* any other subclass of Query that keeps Query's toJSON *)

Inductive value : Type :=
| VUndefined
| VNull
| VBool (b : bool)
| VNum (n : Z)
| VStr (s : string)
| VArr (items : list value)
| VObj (props : list (string * value))
| VQuery (q : Query)
(** An instance of [Query]: its class, [this.type] and [this._queryOpts]. *)
with Query : Type :=
| mkQuery (cls : qclass) (type : string) (_queryOpts : list (string * value)).

(** A plain object [{k1: v1, ...}], keys in insertion order. *)
Definition obj : Type := list (string * value).

Definition cls_of (q : Query) : qclass := let (c, _, _) := q in c.
Definition type_of (q : Query) : string := let (_, t, _) := q in t.
Definition _queryOpts (q : Query) : obj := let (_, _, o) := q in o.

(** [this._queryOpts = o] *)
Definition with_queryOpts (q : Query) (o : obj) : Query :=
  mkQuery (cls_of q) (type_of q) o.

(* ===================================================================== *)
(** ** Plain objects *)
(* ===================================================================== *)

Section Lookup.
Variables (A B : Type) (f : A -> B) (dflt : B).

(** [f(o[k])] when [o] has the own property [k], [dflt] otherwise.  The
    consumer [f] is a parameter so that serialization, which recurses
    into the property it reads, stays structural. *)
Fixpoint get_with (o : list (string * A)) (k : string) : B :=
  match o with
  | [] => dflt
  | (k', v) :: rest => if String.eqb k' k then f v else get_with rest k
  end.
End Lookup.
Arguments get_with {A B} f dflt o k.

(** [o[k]]: the property, [undefined] when absent. *)
Definition get (o : obj) (k : string) : value :=
  get_with (fun v => v) VUndefined o k.

(** [o[k] = v]: an existing property keeps its place, a new one goes last. *)
Fixpoint set (o : obj) (k : string) (v : value) : obj :=
  match o with
  | [] => [(k, v)]
  | (k', v') :: rest =>
      if String.eqb k' k then (k', v) :: rest else (k', v') :: set rest k v
  end.

(** [Object.keys(o)] *)
Definition keys (o : obj) : list string := map fst o.

(* ===================================================================== *)
(** ** lodash *)
(* ===================================================================== *)

Module lodash.

(** [_.has(object, key)]: [key] is an own property of [object]. *)
Fixpoint has (object : obj) (key : string) : bool :=
  match object with
  | [] => false
  | (k', _) :: rest => if String.eqb k' key then true else has rest key
  end.

(** [_.isNil(value)] *)
Definition isNil (v : value) : bool :=
  match v with VUndefined | VNull => true | _ => false end.

(** [_.isArray(value)] *)
Definition isArray (v : value) : bool :=
  match v with VArr _ => true | _ => false end.

(** [_.head(array)] *)
Definition head (v : value) : value :=
  match v with VArr (x :: _) => x | _ => VUndefined end.

(** [_.filter(array, predicate)] *)
Definition filter {A} (array : list A) (predicate : A -> bool) : list A :=
  List.filter predicate array.

(** [_.reduce(array, iteratee, accumulator)] *)
Definition reduce {A B} (array : list A) (iteratee : B -> A -> B)
    (accumulator : B) : B :=
  fold_left iteratee array accumulator.

End lodash.

(* ===================================================================== *)
(** ** Methods: computations over the receiver *)
(* ===================================================================== *)

Inductive error : Type :=
| TypeError                  (* new TypeError(...) *)
| Error (message : string).  (* new Error(message) *)

Inductive completion (A : Type) : Type :=
| Normal (a : A)
| Throw (e : error).
Arguments Normal {A} a.
Arguments Throw {A} e.

(** What a method hands back. *)
Inductive returned : Type :=
| ReturnThis                 (* return this; *)
| ReturnUndefined.           (* falls off the end *)

(** A method body: from the receiver's state to its state afterwards and
    the way the call completed. *)
Definition M (A : Type) : Type := Query -> Query * completion A.

Definition ret {A} (a : A) : M A := fun this => (this, Normal a).

Definition bind {A B} (m : M A) (k : A -> M B) : M B :=
  fun this =>
    match m this with
    | (this', Normal a) => k a this'
    | (this', Throw e) => (this', Throw e)
    end.

Definition throw {A} (e : error) : M A := fun this => (this, Throw e).

(** reads [this._queryOpts] *)
Definition read_queryOpts : M obj := fun this => (this, Normal (_queryOpts this)).

(** [this._queryOpts[k] = v] *)
Definition write_queryOpt (k : string) (v : value) : M unit :=
  fun this => (with_queryOpts this (set (_queryOpts this) k v), Normal tt).

Declare Scope js_scope.
Delimit Scope js_scope with js.
Notation "x <- c1 ;; c2" := (bind c1 (fun x => c2))
  (at level 61, c1 at next level, right associativity) : js_scope.
Notation "c1 ;; c2" := (bind c1 (fun _ => c2))
  (at level 61, right associativity) : js_scope.

(** Runs the statements [body] once for each element, in order, stopping at
    the first that throws; the results are collected. *)
Fixpoint for_each {A B} (body : A -> M B) (xs : list A) : M (list B) :=
  match xs with
  | [] => ret []
  | x :: rest =>
      (r <- body x ;; rs <- for_each body rest ;; ret (r :: rs))%js
  end.

Module lodash_invoke.

(** A JavaScript function as the callee sees a call: the value [this] is
    bound to and the list of arguments. *)
Definition callable (B : Type) : Type := value -> list value -> M B.

(** [_.invokeMap(collection, path, ...args)] for a function [path].
    lodash: "If path is a function, it's invoked for, and this bound to,
    each element in collection" and "any additional arguments are provided
    to each invoked method": each element is the [this] of its call, and
    the arguments of every call are [args]. *)
Definition invokeMap {B} (collection : list value) (path : callable B)
    (args : list value) : M (list B) :=
  for_each (fun element => path element args) collection.

(** An arrow function [x => body]: it has no [this] of its own, so the
    [this] it is called with is dropped; [x] is the first argument, or
    [undefined] when the call passes none. *)
Definition arrow1 {B} (body : value -> M B) : callable B :=
  fun _this args => body (nth 0 args VUndefined).

End lodash_invoke.

(* ===================================================================== *)
(** ** core: the validator and the serializer *)
(* ===================================================================== *)

Module util.

(** Modelled from the spec: [checkType] of [core/util], which is not among
    the sources.  "validateType(value, expectedType) -> void, fails with a
    TypeMismatch error when value is not an instance of expectedType";
    the callers embedded here pass [Query] as the expected type and
    document the failure as a [TypeError]. *)
Definition checkType (instance : value) : M unit :=
  match instance with
  | VQuery _ => ret tt
  | _ => throw TypeError
  end.

End util.

(** The clause names of the bool query, in the order [toJSON] lists them. *)
Definition clauses : list string := ["must"; "filter"; "must_not"; "should"].

Section MapValues.
Variable f : value -> value.
(** [_.mapValues(o, f)]: the same keys in the same order. *)
Fixpoint mapValues (o : obj) : obj :=
  match o with
  | [] => []
  | (k, v) :: rest => (k, f v) :: mapValues rest
  end.
End MapValues.

(** [recursiveToJSON] and the [toJSON] methods call each other.

    [recursiveToJSON] is modelled from the spec ([core/util] is not among
    the sources): a value with a clause's serialization contract is
    serialized by that contract; an ordered sequence is mapped element by
    element; a keyed mapping keeps its keys and has its values mapped;
    anything else is returned unchanged.

    [toJSON], for an instance of [BoolQuery], is the method of
    [bool-query.js]:
<<
      _.reduce(
        _.filter(['must','filter','must_not','should'],
                 clause => _.has(this._queryOpts, clause)),
        (qryOpts, clause) => {
          const clauseQueries = this._queryOpts[clause];
          qryOpts[clause] = recursiveToJSON(
            clauseQueries.length === 1 ? _.head(clauseQueries) : clauseQueries);
          return qryOpts; },
        {})
>>
    wrapped as [{ [this.type]: cleanQryOpts }].  The four clause keys are
    written by [_addQueries] only, and it stores arrays there; on an array,
    [length === 1 ? _.head(a) : a] is the [match] below (lemma
    [unwrap_spec]).

    For the other classes it is modelled from the spec (class [Query] is not
    among the sources): "serialize() -> { [type]: <document of options> }",
    the value being the serializer applied to the whole options map. *)
Fixpoint recursiveToJSON (v : value) : value :=
  match v with
  | VQuery q => toJSON q
  | VArr items => VArr (map recursiveToJSON items)
  | VObj props => VObj (mapValues recursiveToJSON props)
  | _ => v
  end
with toJSON (this : Query) : value :=
  match this with
  | mkQuery BoolQueryC type _queryOpts =>
      let cleanQryOpts :=
        lodash.reduce
          (lodash.filter clauses (fun clause => lodash.has _queryOpts clause))
          (fun qryOpts clause =>
             set qryOpts clause
               (get_with
                  (fun clauseQueries =>
                     recursiveToJSON
                       match clauseQueries with
                       | VArr [only] => only
                       | _ => clauseQueries
                       end)
                  VUndefined _queryOpts clause))
          [] in
      VObj [(type, VObj cleanQryOpts)]
  | mkQuery _ type _queryOpts =>
      VObj [(type, VObj (mapValues recursiveToJSON _queryOpts))]
  end.

(** [clauseQueries.length === 1 ? _.head(clauseQueries) : clauseQueries] *)
Definition unwrap (clauseQueries : value) : value :=
  match clauseQueries with
  | VArr [only] => only
  | _ => clauseQueries
  end.

(** What a clause contributes to the document of a bool query. *)
Definition clause_document (_queryOpts : obj) (clause : string) : value :=
  recursiveToJSON (unwrap (get _queryOpts clause)).

(** The clauses that [toJSON] of a bool query picks. *)
Definition picked (_queryOpts : obj) : list string :=
  lodash.filter clauses (fun clause => lodash.has _queryOpts clause).

Section OverValues.
Variables (p : value -> bool) (f : value -> nat).

(** Every value of the object passes [p]. *)
Fixpoint all_values (o : obj) : bool :=
  match o with
  | [] => true
  | (_, v) :: rest => p v && all_values rest
  end.

(** The sum of [f] over the values of the object. *)
Fixpoint sum_values (o : obj) : nat :=
  match o with
  | [] => 0
  | (_, v) :: rest => f v + sum_values rest
  end.
End OverValues.

(** Plain data: no instance of a class anywhere inside. *)
Fixpoint plain (v : value) : bool :=
  match v with
  | VQuery _ => false
  | VArr items => forallb plain items
  | VObj props => all_values plain props
  | _ => true
  end.

(** The number of arrays, objects and instances in a value: the measure
    the serializer descends along. *)
Fixpoint size (v : value) : nat :=
  match v with
  | VArr items => S (list_sum (map size items))
  | VObj props => S (sum_values size props)
  | VQuery (mkQuery _ _ _queryOpts) => S (sum_values size _queryOpts)
  | _ => 0
  end.

(* ===================================================================== *)
(** ** class Query *)
(* ===================================================================== *)

Module QueryBase.

(** Modelled from the spec: the constructor of [Query] ([core], not among
    the sources), reached through [super(type)]: "type is set once at
    construction"; the options are a mapping that the setters fill, so a
    new instance has none. *)
Definition constructor (cls : qclass) (type : string) : Query :=
  mkQuery cls type [].

End QueryBase.

(** [this._queryOpts[k].push(v)]: appends in place when the property is an
    array; no other value of this model has a method [push], and calling
    what is not there is a [TypeError] of the language. *)
Definition push_queryOpt (k : string) (v : value) : M unit :=
  fun this =>
    match get (_queryOpts this) k with
    | VArr items =>
        (with_queryOpts this (set (_queryOpts this) k (VArr (items ++ [v]))),
         Normal tt)
    | _ => (this, Throw TypeError)
    end.

(** The options after the first statement of [_addQueries],
    [if (!_.has(this._queryOpts, clause)) this._queryOpts[clause] = [];]. *)
Definition ensured (_queryOpts : obj) (clause : string) : obj :=
  if lodash.has _queryOpts clause then _queryOpts
  else set _queryOpts clause (VArr []).

(** The shape [_addQueries] gives the clause keys: a key that is there
    holds an array of [Query] instances. *)
Definition clause_arrays (_queryOpts : obj) : Prop :=
  forall clause, In clause clauses ->
    lodash.has _queryOpts clause = true ->
    exists children, get _queryOpts clause = VArr (map VQuery children).

(* ===================================================================== *)
(** ** class BoolQuery extends Query *)
(* ===================================================================== *)

Module BoolQuery.
Import lodash lodash_invoke.
Local Open Scope js_scope.

(** [constructor() { super('bool'); }] *)
Definition constructor : Query := QueryBase.constructor BoolQueryC "bool".

(** [_addQuery(clause, query)] *)
Definition _addQuery (clause : string) (query : value) : M unit :=
  util.checkType query ;;
  push_queryOpt clause query.

(** [_addQueries(clause, queries)] *)
Definition _addQueries (clause : string) (queries : value) : M unit :=
  _queryOpts <- read_queryOpts ;;
  (if negb (has _queryOpts clause)
   then write_queryOpt clause (VArr [])
   else ret tt) ;;
  match queries with
  | VArr items =>                                   (* _.isArray(queries) *)
      invokeMap items (arrow1 (fun qry => _addQuery clause qry)) [] ;;
      ret tt
  | _ => _addQuery clause queries
  end.

Definition must (queries : value) : M returned :=
  _addQueries "must" queries ;; ret ReturnThis.

Definition filter (queries : value) : M returned :=
  _addQueries "filter" queries ;; ret ReturnThis.

Definition mustNot (queries : value) : M returned :=
  _addQueries "must_not" queries ;; ret ReturnThis.

Definition should (queries : value) : M returned :=
  _addQueries "should" queries ;; ret ReturnThis.

Definition disableCoord (enable : value) : M returned :=
  write_queryOpt "disable_coord" enable ;; ret ReturnThis.

Definition minimumShouldMatch (minimumShouldMatch : value) : M returned :=
  write_queryOpt "minimum_should_match" minimumShouldMatch ;; ret ReturnThis.

Definition adjustPureNegative (enable : value) : M returned :=
  write_queryOpt "adjust_pure_negative" enable ;; ret ReturnThis.

(** [toJSON()] is [toJSON] above on the trees, and [Heap.BoolQuery_toJSON]
    below as it runs. *)

(** The four clause setters by the key they fill. *)
Definition setter_of (clause : string) : value -> M returned :=
  fun queries => _addQueries clause queries ;; ret ReturnThis.

(** One call of the public interface on an instance. *)
Inductive call : Type :=
| Must (queries : value)
| Filter (queries : value)
| MustNot (queries : value)
| Should (queries : value)
| DisableCoord (enable : value)
| MinimumShouldMatch (v : value)
| AdjustPureNegative (enable : value).

Definition perform (c : call) : M returned :=
  match c with
  | Must q => must q
  | Filter q => filter q
  | MustNot q => mustNot q
  | Should q => should q
  | DisableCoord e => disableCoord e
  | MinimumShouldMatch v => minimumShouldMatch v
  | AdjustPureNegative e => adjustPureNegative e
  end.

(** The instance after a caller made the calls one after the other,
    catching whatever a call threw. *)
Definition after (calls : list call) (this : Query) : Query :=
  fold_left (fun q c => fst (perform c q)) calls this.

End BoolQuery.

(* ===================================================================== *)
(** ** Calling a method on an instance *)
(* ===================================================================== *)

(** The own data properties of an instance of [Query]: the tag, which
    [toJSON] reads as [this.type], and the options, [this._queryOpts].
    Methods are not own properties: they sit on the prototype of the
    class. *)
Definition own_property (this : Query) (name : string) : option value :=
  if String.eqb name "type" then Some (VStr (type_of this))
  else if String.eqb name "_queryOpts" then Some (VObj (_queryOpts this))
  else None.

(** [this.name(...)]: the property is looked up on the instance before its
    prototype, so an own property of that name is what gets called; the
    own properties are a string and a plain object, and calling what is no
    function is a [TypeError] of the language.  Without an own property of
    that name the method of the class runs. *)
Definition call_method {A} (name : string) (method : M A) : M A :=
  fun this =>
    match own_property this name with
    | Some _ => (this, Throw TypeError)
    | None => method this
    end.

(* ===================================================================== *)
(** ** class HasChildQuery extends JoiningQueryBase *)
(* ===================================================================== *)

Module HasChildQuery.
Import lodash.
Local Open Scope js_scope.

(** The statement of the constructor that follows
    [super('has_child', ES_REF_URL, qry)]; the receiver is the instance
    as [JoiningQueryBase]'s constructor (not among the sources) left it:
<<
    if (!_.isNil(type)) this._queryOpts.child_type = type;
>> *)
Definition constructor_after_super (type : value) : M unit :=
  if negb (isNil type) then write_queryOpt "child_type" type else ret tt.

(** [childType(type)] *)
Definition childType (type : value) : M returned :=
  write_queryOpt "child_type" type ;; ret ReturnThis.

(** The method [type] of the class, [type(type) { return
    this.childType(type); }], as it would run with the instance as its
    [this]. *)
Definition type_method (type : value) : M returned :=
  r <- childType type ;; ret r.

(** The call [h.type(type)] on an instance [h]: the lookup of [type] on
    [h] goes through the instance first. *)
Definition type (type : value) : M returned :=
  call_method "type" (type_method type).

(** [minChildren(limit)] *)
Definition minChildren (limit : value) : M returned :=
  write_queryOpt "min_children" limit ;; ret ReturnThis.

(** [maxChildren(limit)] *)
Definition maxChildren (limit : value) : M returned :=
  write_queryOpt "max_children" limit ;; ret ReturnThis.

End HasChildQuery.

(* ===================================================================== *)
(** ** Enumerated options: the direction of [TermsAggregation.order] *)
(* ===================================================================== *)

Module TermsAggregation.

(** [c.toLowerCase()] on one character of the ASCII range. *)
Definition lower_ascii (c : ascii) : ascii :=
  let n := nat_of_ascii c in
  if (65 <=? n)%nat && (n <=? 90)%nat then ascii_of_nat (n + 32) else c.

(** [c.toUpperCase()] on one character of the ASCII range. *)
Definition upper_ascii (c : ascii) : ascii :=
  let n := nat_of_ascii c in
  if (97 <=? n)%nat && (n <=? 122)%nat then ascii_of_nat (n - 32) else c.

(** [s.toLowerCase()] *)
Fixpoint toLowerCase (s : string) : string :=
  match s with
  | EmptyString => EmptyString
  | String c rest => String (lower_ascii c) (toLowerCase rest)
  end.

(** A letter-casing of [s]: the characters that [mask] marks are put in
    upper case, the others are left as they are. *)
Fixpoint recase (mask : list bool) (s : string) : string :=
  match s, mask with
  | String c rest, true :: mask' => String (upper_ascii c) (recase mask' rest)
  | String c rest, false :: mask' => String c (recase mask' rest)
  | _, _ => s
  end.

(** Modelled from the spec: the message of an [InvalidOption] error, "of
    the exact form [The '<param>' parameter should be one of '<v1>' or
    '<v2>']". *)
Definition invalidParam (param v1 v2 : string) : error :=
  Error ("The '" ++ param ++ "' parameter should be one of '" ++ v1
           ++ "' or '" ++ v2 ++ "'").

(** Modelled from the spec: the validator of an enumerated option with two
    allowed values ([TermsAggregation] and its helpers are not among the
    sources).  "validateEnum(value, allowedValues) -> value
    (case-insensitive for direction-like enums such as asc/desc), fails
    with an InvalidOption error naming the parameter and listing allowed
    values verbatim"; "anything else rejected"; the accepted value is
    handed back in its lower-case form. *)
Definition validateEnum (param v1 v2 : string) (v : value)
    : completion string :=
  match v with
  | VStr s =>
      let lowered := toLowerCase s in
      if String.eqb lowered v1 || String.eqb lowered v2
      then Normal lowered
      else Throw (invalidParam param v1 v2)
  | _ => Throw (invalidParam param v1 v2)
  end.

(** Modelled from the spec: the direction check of [order(field,
    direction)].  The test calls [order('my_field')] without a direction
    and expects [{ my_field: 'desc' }]: a direction that is not passed
    ([None]) stands for ['desc']; one that is passed goes through the
    validator.  The result is the option the call stores under [order]. *)
Definition order (field : string) (direction : option value)
    : completion value :=
  match direction with
  | None => Normal (VObj [(field, VStr "desc")])
  | Some d =>
      match validateEnum "direction" "asc" "desc" d with
      | Normal lowered => Normal (VObj [(field, VStr lowered)])
      | Throw e => Throw e
      end
  end.

End TermsAggregation.

(* ===================================================================== *)
(** ** Objects in a store: [toJSON] as it runs *)
(* ===================================================================== *)

(** The trees above give an instance its options by value.  To say what a
    call of [toJSON] writes, the objects are put in a store: a value is a
    primitive or a reference, every array, plain object and instance is a
    cell, and a call reads, allocates and writes cells. *)

(** A clause tree on which the [toJSON] of the trees is the method as it
    runs: in every bool query of the tree a clause key that is there holds
    an array, the shape [_addQueries] gives it. *)
Fixpoint well_formed (v : value) : bool :=
  match v with
  | VArr items => forallb well_formed items
  | VObj props => all_values well_formed props
  | VQuery (mkQuery cls _ _queryOpts) =>
      all_values well_formed _queryOpts
      && match cls with
         | BoolQueryC =>
             forallb (fun clause =>
                        negb (lodash.has _queryOpts clause)
                        || lodash.isArray (get _queryOpts clause))
                     clauses
         | _ => true
         end
  | _ => true
  end.

Module Heap.

Definition loc : Type := nat.

(** A value as a variable or a property holds it. *)
Inductive rvalue : Type :=
| RUndefined
| RNull
| RBool (b : bool)
| RNum (n : Z)
| RStr (s : string)
| RRef (l : loc).

(** The properties of a plain object, in insertion order. *)
Definition rprops : Type := list (string * rvalue).

Inductive cell : Type :=
| CArray (items : list rvalue)
| CObject (props : rprops)
(** An instance of [Query]: its class, [this.type], and the plain object
    [this._queryOpts] refers to. *)
| CInstance (cls : qclass) (type : string) (_queryOpts : loc).

(** The store; a reference is an index into it, and a new cell goes to the
    end. *)
Definition heap : Type := list cell.

(** [_.has(props, key)] *)
Fixpoint rhas (props : rprops) (key : string) : bool :=
  match props with
  | [] => false
  | (k', _) :: rest => if String.eqb k' key then true else rhas rest key
  end.

(** [props[k]], [undefined] when absent *)
Fixpoint rget (props : rprops) (k : string) : rvalue :=
  match props with
  | [] => RUndefined
  | (k', v) :: rest => if String.eqb k' k then v else rget rest k
  end.

(** [props[k] = v] *)
Fixpoint rset (props : rprops) (k : string) (v : rvalue) : rprops :=
  match props with
  | [] => [(k, v)]
  | (k', v') :: rest =>
      if String.eqb k' k then (k', v) :: rest else (k', v') :: rset rest k v
  end.

(** The store with the cell at [l] replaced. *)
Fixpoint update (l : loc) (c : cell) (h : heap) : heap :=
  match h, l with
  | [], _ => []
  | _ :: rest, 0 => c :: rest
  | c0 :: rest, S l' => c0 :: update l' c rest
  end.

(** A run from a store: the store afterwards and the completion, or
    nothing when the run leaves the model (a reference to no cell, a cell
    of the wrong kind where the code cannot meet one, or the depth bound
    of the serializer reached). *)
Definition H (A : Type) : Type := heap -> option (heap * completion A).

Definition hret {A} (a : A) : H A := fun h => Some (h, Normal a).

Definition hbind {A B} (m : H A) (k : A -> H B) : H B :=
  fun h =>
    match m h with
    | Some (h', Normal a) => k a h'
    | Some (h', Throw e) => Some (h', Throw e)
    | None => None
    end.

Definition hthrow {A} (e : error) : H A := fun h => Some (h, Throw e).

Definition outside {A} : H A := fun _ => None.

Declare Scope heap_scope.
Delimit Scope heap_scope with heap.
Notation "x <- c1 ;; c2" := (hbind c1 (fun x => c2))
  (at level 61, c1 at next level, right associativity) : heap_scope.
Notation "c1 ;; c2" := (hbind c1 (fun _ => c2))
  (at level 61, right associativity) : heap_scope.
Local Open Scope heap_scope.

(** [[...]], [{...}]: a new cell, and the reference to it. *)
Definition alloc (c : cell) : H rvalue :=
  fun h => Some (h ++ [c], Normal (RRef (length h))).

Definition read (l : loc) : H cell :=
  fun h =>
    match nth_error h l with
    | Some c => Some (h, Normal c)
    | None => None
    end.

(** [target[k] = v] on a plain object. *)
Definition write_property (target : rvalue) (k : string) (v : rvalue) : H unit :=
  fun h =>
    match target with
    | RRef l =>
        match nth_error h l with
        | Some (CObject props) =>
            Some (update l (CObject (rset props k v)) h, Normal tt)
        | _ => None
        end
    | _ => None
    end.

(** The properties of the object [this._queryOpts] refers to. *)
Definition read_queryOpts (this : loc) : H rprops :=
  c <- read this ;;
  match c with
  | CInstance _ _ qo =>
      c' <- read qo ;;
      match c' with
      | CObject props => hret props
      | _ => outside
      end
  | _ => outside
  end.

(** [this.type] *)
Definition read_type (this : loc) : H string :=
  c <- read this ;;
  match c with
  | CInstance _ type _ => hret type
  | _ => outside
  end.

(** The body once for each element, in order, up to the first throw. *)
Fixpoint each {A B} (body : A -> H B) (xs : list A) : H (list B) :=
  match xs with
  | [] => hret []
  | x :: rest => r <- body x ;; rs <- each body rest ;; hret (r :: rs)
  end.

(** [clauseQueries.length === 1 ? _.head(clauseQueries) : clauseQueries].
    [undefined] and [null] have no properties: reading [length] throws.  An
    array has its length and [_.head] is its first element.  A plain object
    has the [length] it holds, and [_.head] reads its property [0].  An
    instance, a number and a boolean have no [length]; a string of length
    one is its own first character.  *)
Definition only_or_all (clauseQueries : rvalue) : H rvalue :=
  match clauseQueries with
  | RUndefined | RNull => hthrow TypeError
  | RRef l =>
      c <- read l ;;
      match c with
      | CArray [only] => hret only
      | CArray _ => hret clauseQueries
      | CObject props =>
          match rget props "length" with
          | RNum 1 => hret (rget props "0")
          | _ => hret clauseQueries
          end
      | CInstance _ _ _ => hret clauseQueries
      end
  | _ => hret clauseQueries
  end.

Section Methods.
(** The serializer the methods call. *)
Variable recursiveToJSON : rvalue -> H rvalue.

(** [toJSON] of [BoolQuery], statement by statement: the [_.filter] pass
    over the literal array, the accumulator [{}], the callback of
    [_.reduce] once per picked clause, the object [{ [this.type]:
    cleanQryOpts }]. *)
Definition BoolQuery_toJSON (this : loc) : H rvalue :=
  _queryOpts <- read_queryOpts this ;;
  let picked := lodash.filter clauses (fun clause => rhas _queryOpts clause) in
  qryOpts <- alloc (CObject []) ;;
  each (fun clause =>
          _queryOpts <- read_queryOpts this ;;
          let clauseQueries := rget _queryOpts clause in
          argument <- only_or_all clauseQueries ;;
          document <- recursiveToJSON argument ;;
          write_property qryOpts clause document)
       picked ;;
  type <- read_type this ;;
  alloc (CObject [(type, qryOpts)]).

(** Modelled from the spec: [toJSON] of [Query], as in the trees,
    [{ [this.type]: recursiveToJSON(this._queryOpts) }]. *)
Definition Query_toJSON (this : loc) : H rvalue :=
  c <- read this ;;
  match c with
  | CInstance _ _ qo =>
      document <- recursiveToJSON (RRef qo) ;;
      type <- read_type this ;;
      alloc (CObject [(type, document)])
  | _ => outside
  end.

(** [this.toJSON()], by the class of the instance. *)
Definition dispatch_toJSON (this : loc) : H rvalue :=
  c <- read this ;;
  match c with
  | CInstance BoolQueryC _ _ => BoolQuery_toJSON this
  | CInstance _ _ _ => Query_toJSON this
  | _ => outside
  end.

End Methods.

(** Modelled from the spec: [recursiveToJSON], as in the trees; an array
    and a plain object are mapped into a new array and a new object.  The
    bound is the depth to which the serializer may descend. *)
Fixpoint recursiveToJSON (depth : nat) (v : rvalue) : H rvalue :=
  match depth with
  | 0 => outside
  | S depth' =>
      match v with
      | RRef l =>
          c <- read l ;;
          match c with
          | CInstance _ _ _ => dispatch_toJSON (recursiveToJSON depth') l
          | CArray items =>
              documents <- each (recursiveToJSON depth') items ;;
              alloc (CArray documents)
          | CObject props =>
              documents <-
                each (fun kv =>
                        document <- recursiveToJSON depth' (snd kv) ;;
                        hret (fst kv, document))
                     props ;;
              alloc (CObject documents)
          end
      | _ => hret v
      end
  end.

(** The call [this.toJSON()]. *)
Definition toJSON (depth : nat) (this : loc) : H rvalue :=
  dispatch_toJSON (recursiveToJSON depth) this.

Section Load.
Variable load : rvalue -> option value.

Fixpoint load_items (items : list rvalue) : option (list value) :=
  match items with
  | [] => Some []
  | x :: rest =>
      match load x, load_items rest with
      | Some t, Some ts => Some (t :: ts)
      | _, _ => None
      end
  end.

Fixpoint load_props (props : rprops) : option obj :=
  match props with
  | [] => Some []
  | (k, x) :: rest =>
      match load x, load_props rest with
      | Some t, Some ts => Some ((k, t) :: ts)
      | _, _ => None
      end
  end.
End Load.

(** The tree a value stands for in a store, followed through at most
    [depth] references; nothing when the value reaches no tree within that
    depth. *)
Fixpoint load (depth : nat) (h : heap) (v : rvalue) : option value :=
  match v with
  | RUndefined => Some VUndefined
  | RNull => Some VNull
  | RBool b => Some (VBool b)
  | RNum n => Some (VNum n)
  | RStr s => Some (VStr s)
  | RRef l =>
      match depth with
      | 0 => None
      | S depth' =>
          match nth_error h l with
          | Some (CArray items) =>
              option_map VArr (load_items (load depth' h) items)
          | Some (CObject props) =>
              option_map VObj (load_props (load depth' h) props)
          | Some (CInstance cls type qo) =>
              match load depth' h (RRef qo) with
              | Some (VObj o) => Some (VQuery (mkQuery cls type o))
              | _ => None
              end
          | None => None
          end
      end
  end.

(** Every cell of [h] is still that cell in [h']. *)
Definition preserved (h h' : heap) : Prop :=
  forall l c, nth_error h l = Some c -> nth_error h' l = Some c.

(** The value [d] stands for the tree [doc] through the cells of [hp] from
    [base] on alone: in every store with those cells it stands for [doc]. *)
Definition stands_for (base : nat) (hp : heap) (d : rvalue) (doc : value) : Prop :=
  forall hp',
    (forall l, base <= l -> l < length hp -> nth_error hp' l = nth_error hp l) ->
    exists depth, load depth hp' d = Some doc.

(** A run keeps the cells below [n] when, started from a store that has
    them, it ends with each of them as it was, in a store that is no
    shorter. *)
Definition keeps {A : Type} (n : nat) (m : H A) : Prop :=
  forall h h' out,
    n <= length h -> m h = Some (h', out) ->
    (forall l, l < n -> nth_error h' l = nth_error h l) /\ length h <= length h'.

(** What holds of a store through its cells from [base] on alone: it
    holds of every store that has those cells. *)
Definition from_cells (base : nat) (hp : heap) (P : heap -> Prop) : Prop :=
  forall hp',
    (forall l, base <= l -> l < length hp -> nth_error hp' l = nth_error hp l) ->
    P hp'.

End Heap.

(** The serializer [rec] does, on every store and for every value that
    stands for a well-formed tree within depth [n], what the serializer of
    the trees says: it completes normally with a value that stands for the
    document of the tree, through new cells alone. *)
Definition serializes (n : nat) (rec : Heap.rvalue -> Heap.H Heap.rvalue) : Prop :=
  forall hc x tx,
    Heap.load n hc x = Some tx -> well_formed tx = true ->
    exists h' d,
      rec x hc = Some (h', Normal d) /\
      Heap.stands_for (length hc) h' d (recursiveToJSON tx).

(* ===================================================================== *)
(** * Properties *)
(* ===================================================================== *)

(** ** Plain objects *)

Section ObjectFacts.
Import lodash.

Lemma get_with_has (B : Type) (f : value -> B) (dflt : B) (o : obj) (k : string) :
  get_with f dflt o k = if has o k then f (get o k) else dflt.
Proof.
  unfold get. induction o as [|[k' v] rest IH]; simpl; [reflexivity|].
  destruct (String.eqb k' k); [reflexivity | exact IH].
Qed.

Lemma get_absent (o : obj) (k : string) :
  has o k = false -> get o k = VUndefined.
Proof.
  intros H. unfold get. rewrite get_with_has, H. reflexivity.
Qed.

Lemma has_set_same (o : obj) (k : string) (v : value) :
  has (set o k v) k = true.
Proof.
  induction o as [|[k' v'] rest IH]; simpl.
  - now rewrite String.eqb_refl.
  - destruct (String.eqb k' k) eqn:E; simpl; rewrite E; [reflexivity | exact IH].
Qed.

Lemma get_set_same (o : obj) (k : string) (v : value) :
  get (set o k v) k = v.
Proof.
  unfold get. induction o as [|[k' v'] rest IH]; simpl.
  - now rewrite String.eqb_refl.
  - destruct (String.eqb k' k) eqn:E; simpl; rewrite E; [reflexivity | exact IH].
Qed.

Lemma has_set_other (o : obj) (k k' : string) (v : value) :
  k' <> k -> has (set o k v) k' = has o k'.
Proof.
  intros Hne. induction o as [|[k0 v0] rest IH]; simpl.
  - destruct (String.eqb_spec k k'); [congruence | reflexivity].
  - destruct (String.eqb_spec k0 k) as [->|Hk0]; simpl.
    + reflexivity.
    + now rewrite IH.
Qed.

Lemma get_set_other (o : obj) (k k' : string) (v : value) :
  k' <> k -> get (set o k v) k' = get o k'.
Proof.
  intros Hne. unfold get. induction o as [|[k0 v0] rest IH]; simpl.
  - destruct (String.eqb_spec k k'); [congruence | reflexivity].
  - destruct (String.eqb_spec k0 k) as [->|Hk0]; simpl.
    + destruct (String.eqb_spec k k'); [congruence | reflexivity].
    + now rewrite IH.
Qed.

Lemma set_absent (o : obj) (k : string) (v : value) :
  has o k = false -> set o k v = o ++ [(k, v)].
Proof.
  induction o as [|[k0 v0] rest IH]; simpl; [reflexivity|].
  destruct (String.eqb k0 k); [discriminate|].
  intros H. now rewrite IH.
Qed.

Lemma has_In_keys (o : obj) (k : string) :
  has o k = true <-> In k (keys o).
Proof.
  unfold keys. induction o as [|[k0 v0] rest IH]; simpl.
  - split; [discriminate | tauto].
  - destruct (String.eqb_spec k0 k) as [->|Hne].
    + split; auto.
    + rewrite IH. split; [auto | intros [?|?]; [congruence | assumption]].
Qed.

(** Writing the keys of a duplicate-free list, none of them present yet,
    appends one property per key, in the order of the list. *)
Lemma reduce_set_fresh (g : string -> value) (ks : list string) :
  forall acc : obj,
    NoDup ks ->
    (forall k, In k ks -> has acc k = false) ->
    reduce ks (fun qryOpts clause => set qryOpts clause (g clause)) acc
    = acc ++ map (fun clause => (clause, g clause)) ks.
Proof.
  unfold reduce.
  induction ks as [|k ks IH]; intros acc Hnd Hfresh; simpl.
  - now rewrite app_nil_r.
  - inversion Hnd as [|? ? Hnotin Hnd']; subst.
    rewrite IH; [| assumption |].
    + rewrite set_absent by (apply Hfresh; now left).
      now rewrite <- app_assoc.
    + intros k' Hin. rewrite has_set_other.
      * apply Hfresh. now right.
      * intros ->. contradiction.
Qed.

Lemma get_map_keys (g : string -> value) (ks : list string) (k : string) :
  In k ks -> get (map (fun clause => (clause, g clause)) ks) k = g k.
Proof.
  unfold get. induction ks as [|k0 ks IH]; simpl; [tauto|].
  intros [->|Hin].
  - now rewrite String.eqb_refl.
  - destruct (String.eqb_spec k0 k) as [->|Hne]; [reflexivity | auto].
Qed.

End ObjectFacts.

(** ** The document of a bool query *)

Section BoolDocument.
Import lodash.

Lemma unwrap_spec (items : list value) :
  unwrap (VArr items)
  = if (length items =? 1)%nat then head (VArr items) else VArr items.
Proof.
  destruct items as [|x [|y rest]]; reflexivity.
Qed.

Lemma clauses_NoDup : NoDup clauses.
Proof.
  unfold clauses.
  repeat (constructor; [simpl; intuition discriminate|]). constructor.
Qed.

(** [toJSON] of a bool query, in closed form: one property per picked
    clause, in the order of the literal array. *)
Lemma toJSON_BoolQuery (type : string) (_queryOpts : obj) :
  toJSON (mkQuery BoolQueryC type _queryOpts)
  = VObj [(type,
           VObj (map (fun clause => (clause, clause_document _queryOpts clause))
                     (picked _queryOpts)))].
Proof.
  cbn [toJSON]. do 3 f_equal.
  rewrite reduce_set_fresh with
    (g := fun clause =>
            get_with (fun clauseQueries => recursiveToJSON (unwrap clauseQueries))
                     VUndefined _queryOpts clause).
  - rewrite app_nil_l. unfold picked. f_equal.
    apply map_ext_in. intros clause Hin.
    apply filter_In in Hin. destruct Hin as [_ Hhas].
    rewrite get_with_has, Hhas. reflexivity.
  - apply NoDup_filter, clauses_NoDup.
  - reflexivity.
Qed.

(** [toJSON] of a bool query, as the method is written: the read
    [this._queryOpts[clause]] first, then the choice between the only
    element and the array, then the serializer. *)
Lemma toJSON_BoolQuery_as_written (type : string) (_queryOpts : obj) :
  toJSON (mkQuery BoolQueryC type _queryOpts)
  = VObj [(type,
           VObj (reduce
                   (filter clauses (fun clause => has _queryOpts clause))
                   (fun qryOpts clause =>
                      let clauseQueries := get _queryOpts clause in
                      set qryOpts clause (recursiveToJSON (unwrap clauseQueries)))
                   []))].
Proof.
  rewrite toJSON_BoolQuery. do 3 f_equal.
  rewrite reduce_set_fresh with
    (g := fun clause => recursiveToJSON (unwrap (get _queryOpts clause))).
  - reflexivity.
  - apply NoDup_filter, clauses_NoDup.
  - reflexivity.
Qed.

(** Every [toJSON] of the model yields an object with the single key
    [this.type]. *)
Lemma toJSON_single_key (q : Query) :
  exists options, toJSON q = VObj [(type_of q, options)].
Proof.
  destruct q as [[| |] type opts]; cbn [toJSON type_of]; eexists; reflexivity.
Qed.

End BoolDocument.

(** ** The clause setters of the bool query *)

Section BoolSetters.
Import lodash.

Lemma with_queryOpts_same (q : Query) : with_queryOpts q (_queryOpts q) = q.
Proof. now destruct q. Qed.

Lemma has_ensured (o : obj) (clause : string) :
  has (ensured o clause) clause = true.
Proof.
  unfold ensured. destruct (has o clause) eqn:E; [exact E | apply has_set_same].
Qed.

Lemma ensured_present (o : obj) (clause : string) :
  has o clause = true -> ensured o clause = o.
Proof. unfold ensured. now intros ->. Qed.

(** The first statement of [_addQueries], run on its own. *)
Lemma _addQueries_unfold (clause : string) (queries : value) (this : Query) :
  BoolQuery._addQueries clause queries this
  = match queries with
    | VArr items =>
        bind (lodash_invoke.invokeMap items
                (lodash_invoke.arrow1 (fun qry => BoolQuery._addQuery clause qry)) [])
             (fun _ => ret tt)
             (with_queryOpts this (ensured (_queryOpts this) clause))
    | _ => BoolQuery._addQuery clause queries
             (with_queryOpts this (ensured (_queryOpts this) clause))
    end.
Proof.
  destruct this as [cls type o].
  unfold BoolQuery._addQueries, bind, read_queryOpts, ensured.
  cbn [_queryOpts].
  destruct (has o clause); cbn [negb]; unfold write_queryOpt, ret;
    cbn [with_queryOpts _queryOpts cls_of type_of]; destruct queries; reflexivity.
Qed.

(** A single [Query] is appended to the clause's array. *)
Lemma _addQueries_Query (clause : string) (c : Query) (this : Query)
      (items : list value) :
  get (ensured (_queryOpts this) clause) clause = VArr items ->
  BoolQuery._addQueries clause (VQuery c) this
  = (with_queryOpts this
       (set (ensured (_queryOpts this) clause) clause (VArr (items ++ [VQuery c]))),
     Normal tt).
Proof.
  intros Hget. rewrite _addQueries_unfold.
  destruct this as [cls type o]. cbn [_queryOpts] in *.
  unfold BoolQuery._addQuery, bind, util.checkType, ret, push_queryOpt.
  cbn [with_queryOpts _queryOpts cls_of type_of]. now rewrite Hget.
Qed.

(** A value that is neither a [Query] nor an array is refused, after the
    clause's key was ensured. *)
Lemma _addQueries_refused (clause : string) (queries : value) (this : Query) :
  (forall c, queries <> VQuery c) ->
  isArray queries = false ->
  BoolQuery._addQueries clause queries this
  = (with_queryOpts this (ensured (_queryOpts this) clause), Throw TypeError).
Proof.
  intros Hq Ha. rewrite _addQueries_unfold.
  destruct queries; try reflexivity; try discriminate.
  exfalso. eapply Hq. reflexivity.
Qed.

(** An empty array adds nothing, after the clause's key was ensured. *)
Lemma _addQueries_empty (clause : string) (this : Query) :
  BoolQuery._addQueries clause (VArr []) this
  = (with_queryOpts this (ensured (_queryOpts this) clause), Normal tt).
Proof. rewrite _addQueries_unfold. reflexivity. Qed.

(** An array with an element: the callback is invoked with the element as
    its [this] and with no argument, so its parameter [qry] is
    [undefined], whatever the element is; [checkType] refuses it. *)
Lemma _addQueries_array (clause : string) (first : value) (others : list value)
      (this : Query) :
  BoolQuery._addQueries clause (VArr (first :: others)) this
  = (with_queryOpts this (ensured (_queryOpts this) clause), Throw TypeError).
Proof. rewrite _addQueries_unfold. reflexivity. Qed.

(** The state after [_addQueries], whatever the argument: the clause's
    key ensured, and at most one [Query] appended. *)
Lemma _addQueries_state (clause : string) (queries : value) (this : Query) :
  let o := ensured (_queryOpts this) clause in
  fst (BoolQuery._addQueries clause queries this) = with_queryOpts this o
  \/ exists c items,
       queries = VQuery c /\ get o clause = VArr items /\
       fst (BoolQuery._addQueries clause queries this)
       = with_queryOpts this (set o clause (VArr (items ++ [VQuery c]))).
Proof.
  intros o. rewrite _addQueries_unfold. fold o.
  destruct queries as [| | | | |[|x xs]| |c]; try (left; reflexivity).
  destruct this as [cls type opts]. cbn [_queryOpts] in o.
  unfold BoolQuery._addQuery, bind, util.checkType, ret, push_queryOpt.
  cbn [with_queryOpts _queryOpts cls_of type_of].
  destruct (get o clause) eqn:Hget; try (left; reflexivity).
  right. exists c, items. repeat split; reflexivity.
Qed.

End BoolSetters.

(** ** What every sequence of calls preserves *)

Section BoolInvariant.
Import lodash.

Lemma get_array_has (o : obj) (k : string) (items : list value) :
  get o k = VArr items -> has o k = true.
Proof.
  intros Hget. destruct (has o k) eqn:E; [reflexivity|].
  rewrite (get_absent _ _ E) in Hget. discriminate.
Qed.

Lemma clause_arrays_ensured (o : obj) (clause : string) :
  clause_arrays o -> clause_arrays (ensured o clause).
Proof.
  intros Hinv. unfold ensured. destruct (has o clause) eqn:E; [exact Hinv|].
  intros clause' Hin Hhas.
  destruct (string_dec clause' clause) as [->|Hne].
  - exists []. now rewrite get_set_same.
  - rewrite get_set_other by assumption.
    rewrite has_set_other in Hhas by assumption. now apply Hinv.
Qed.

Lemma clause_arrays_push (o : obj) (clause : string) (items : list value)
      (c : Query) :
  clause_arrays o -> In clause clauses -> get o clause = VArr items ->
  clause_arrays (set o clause (VArr (items ++ [VQuery c]))).
Proof.
  intros Hinv Hcl Hget clause' Hin Hhas.
  destruct (string_dec clause' clause) as [->|Hne].
  - destruct (Hinv clause Hcl (get_array_has _ _ _ Hget)) as [children Hch].
    exists (children ++ [c]). rewrite get_set_same, map_app. simpl.
    rewrite Hch in Hget. now inversion Hget.
  - rewrite get_set_other by assumption.
    rewrite has_set_other in Hhas by assumption. now apply Hinv.
Qed.

Lemma clause_arrays_set_other (o : obj) (k : string) (v : value) :
  ~ In k clauses -> clause_arrays o -> clause_arrays (set o k v).
Proof.
  intros Hk Hinv clause Hin Hhas.
  assert (Hne : clause <> k) by (intros ->; contradiction).
  rewrite get_set_other by assumption.
  rewrite has_set_other in Hhas by assumption. now apply Hinv.
Qed.

Lemma _addQueries_preserves (clause : string) (queries : value) (this : Query) :
  In clause clauses ->
  clause_arrays (_queryOpts this) ->
  let this' := fst (BoolQuery._addQueries clause queries this) in
  cls_of this' = cls_of this /\ type_of this' = type_of this /\
  clause_arrays (_queryOpts this').
Proof.
  intros Hcl Hinv.
  destruct (_addQueries_state clause queries this) as [->|(c & items & _ & Hget & ->)];
    destruct this as [cls type o]; cbn [with_queryOpts _queryOpts cls_of type_of] in *;
    repeat split.
  - now apply clause_arrays_ensured.
  - apply clause_arrays_push; auto using clause_arrays_ensured.
Qed.

Lemma fst_then_ReturnThis (m : M unit) (this : Query) :
  fst (bind m (fun _ => ret ReturnThis) this) = fst (m this).
Proof. unfold bind, ret. now destruct (m this) as [this' [[]|e]]. Qed.

Lemma perform_preserves (c : BoolQuery.call) (this : Query) :
  clause_arrays (_queryOpts this) ->
  let this' := fst (BoolQuery.perform c this) in
  cls_of this' = cls_of this /\ type_of this' = type_of this /\
  clause_arrays (_queryOpts this').
Proof.
  intros Hinv.
  destruct c; cbn [BoolQuery.perform];
    unfold BoolQuery.must, BoolQuery.filter, BoolQuery.mustNot, BoolQuery.should,
      BoolQuery.disableCoord, BoolQuery.minimumShouldMatch,
      BoolQuery.adjustPureNegative;
    rewrite fst_then_ReturnThis;
    try (apply _addQueries_preserves;
         [unfold clauses; simpl; tauto | assumption]);
    destruct this as [cls type o];
    cbn [write_queryOpt fst with_queryOpts _queryOpts cls_of type_of] in *;
    (repeat split);
    (apply clause_arrays_set_other;
     [unfold clauses; simpl; intuition discriminate | assumption]).
Qed.

Lemma after_preserves (calls : list BoolQuery.call) :
  forall this : Query,
    clause_arrays (_queryOpts this) ->
    let this' := BoolQuery.after calls this in
    cls_of this' = cls_of this /\ type_of this' = type_of this /\
    clause_arrays (_queryOpts this').
Proof.
  unfold BoolQuery.after.
  induction calls as [|c calls IH]; intros this Hinv; simpl.
  - auto.
  - destruct (perform_preserves c this Hinv) as (Hc & Ht & Hinv').
    destruct (IH _ Hinv') as (Hc' & Ht' & Hinv'').
    rewrite Hc', Ht', Hc, Ht. auto.
Qed.

Lemma clause_arrays_constructor : clause_arrays (_queryOpts BoolQuery.constructor).
Proof. intros clause _ Hhas. discriminate. Qed.

(** Any instance a caller can reach from [new BoolQuery()]. *)
Lemma after_constructor (calls : list BoolQuery.call) :
  exists o,
    BoolQuery.after calls BoolQuery.constructor = mkQuery BoolQueryC "bool" o
    /\ clause_arrays o.
Proof.
  destruct (after_preserves calls BoolQuery.constructor clause_arrays_constructor)
    as (Hc & Ht & Hinv).
  destruct (BoolQuery.after calls BoolQuery.constructor) as [cls type o].
  cbn in Hc, Ht, Hinv. subst. now exists o.
Qed.

End BoolInvariant.

(** ** Serializing the clauses of a bool query *)

Section ClauseDocuments.
Import lodash.

Lemma keys_map_keys (g : string -> value) (ks : list string) :
  keys (map (fun clause => (clause, g clause)) ks) = ks.
Proof.
  unfold keys. rewrite map_map. simpl. apply map_id.
Qed.

Lemma In_picked (o : obj) (clause : string) :
  In clause clauses -> has o clause = true -> In clause (picked o).
Proof. intros Hin Hhas. apply filter_In. now split. Qed.

Lemma recursiveToJSON_queries (children : list Query) :
  recursiveToJSON (VArr (map VQuery children)) = VArr (map toJSON children).
Proof.
  cbn [recursiveToJSON]. rewrite map_map. reflexivity.
Qed.

(** The entry of a picked clause in the document. *)
Lemma picked_entry (o : obj) (clause : string) :
  In clause clauses -> has o clause = true ->
  let cleanQryOpts :=
    map (fun clause => (clause, clause_document o clause)) (picked o) in
  has cleanQryOpts clause = true /\
  get cleanQryOpts clause = clause_document o clause.
Proof.
  intros Hin Hhas. split.
  - apply has_In_keys. rewrite keys_map_keys. now apply In_picked.
  - apply get_map_keys. now apply In_picked.
Qed.

(** A clause that is not there has no entry in the document. *)
Lemma absent_entry (o : obj) (clause : string) :
  has o clause = false ->
  has (map (fun clause => (clause, clause_document o clause)) (picked o)) clause
  = false.
Proof.
  intros Habs.
  destruct (has (map _ (picked o)) clause) eqn:E; [|reflexivity].
  apply has_In_keys in E. rewrite keys_map_keys in E.
  apply filter_In in E. destruct E as [_ E]. congruence.
Qed.

(** The scenario of the specification, for any three children. *)
Lemma must_one_should_two (child1 child2 child3 : Query) :
  toJSON (BoolQuery.after
            [BoolQuery.Must (VQuery child1);
             BoolQuery.Should (VQuery child2);
             BoolQuery.Should (VQuery child3)]
            BoolQuery.constructor)
  = VObj [("bool",
           VObj [("must", toJSON child1);
                 ("should", VArr [toJSON child2; toJSON child3])])].
Proof. reflexivity. Qed.

End ClauseDocuments.

(** C1.  In the document of a bool query whose clause keys hold arrays of
    queries, as the setters leave them, the entry of a clause (must, filter,
    must_not, should) that holds exactly one child is that child's document,
    a bare object and not an array; the entry of a clause that holds two or
    more children is the array of the children's documents, in append
    order.  A bool query given one [must] child and two [should] children
    serializes to [{bool: {must: doc1, should: [doc2, doc3]}}]. *)
Theorem single_clause_bare_many_clauses_array :
  (forall (type : string) (_queryOpts : obj) (clause : string),
      clause_arrays _queryOpts ->
      In clause clauses ->
      lodash.has _queryOpts clause = true ->
      exists cleanQryOpts children,
        toJSON (mkQuery BoolQueryC type _queryOpts)
        = VObj [(type, VObj cleanQryOpts)]
        /\ get _queryOpts clause = VArr (map VQuery children)
        /\ lodash.has cleanQryOpts clause = true
        /\ (forall child,
               children = [child] ->
               get cleanQryOpts clause = toJSON child /\
               lodash.isArray (toJSON child) = false)
        /\ ((2 <= length children)%nat ->
            get cleanQryOpts clause = VArr (map toJSON children)))
  /\ (forall child1 child2 child3 : Query,
         toJSON (BoolQuery.after
                   [BoolQuery.Must (VQuery child1);
                    BoolQuery.Should (VQuery child2);
                    BoolQuery.Should (VQuery child3)]
                   BoolQuery.constructor)
         = VObj [("bool",
                  VObj [("must", toJSON child1);
                        ("should", VArr [toJSON child2; toJSON child3])])]).
Proof.
  split; [| exact must_one_should_two].
  intros type o clause Hshape Hin Hhas.
  destruct (Hshape clause Hin Hhas) as [children Hget].
  destruct (picked_entry o clause Hin Hhas) as [Hp Hg].
  eexists. exists children.
  split; [apply toJSON_BoolQuery|].
  split; [exact Hget|]. split; [exact Hp|]. split.
  - intros child ->. split.
    + rewrite Hg. unfold clause_document. rewrite Hget. reflexivity.
    + destruct (toJSON_single_key child) as [options ->]. reflexivity.
  - intros Hlen. rewrite Hg. unfold clause_document. rewrite Hget.
    destruct children as [|a [|b rest]]; simpl in Hlen; try lia.
    change (unwrap (VArr (map VQuery (a :: b :: rest))))
      with (VArr (map VQuery (a :: b :: rest))).
    apply recursiveToJSON_queries.
Qed.

(** C1 on three concrete children: [must] holds one child, [should] holds
    two. *)
Lemma single_clause_bare_many_clauses_array_witness :
  let child1 := mkQuery QueryC "match_all" [] in
  let child2 := mkQuery QueryC "term" [("user", VStr "kimchy")] in
  let child3 := mkQuery QueryC "term" [("tag", VStr "tech")] in
  let _queryOpts :=
    [("must", VArr [VQuery child1]);
     ("should", VArr [VQuery child2; VQuery child3])] in
  exists cleanQryOpts,
    toJSON (mkQuery BoolQueryC "bool" _queryOpts)
    = VObj [("bool", VObj cleanQryOpts)]
    /\ get cleanQryOpts "must" = VObj [("match_all", VObj [])]
    /\ get cleanQryOpts "should"
       = VArr [VObj [("term", VObj [("user", VStr "kimchy")])];
               VObj [("term", VObj [("tag", VStr "tech")])]].
Proof.
  intros child1 child2 child3 o.
  assert (Hshape : clause_arrays o).
  { intros clause Hin Hhas. simpl in Hin.
    destruct Hin as [<-|[<-|[<-|[<-|[]]]]]; try discriminate Hhas.
    - exists [child1]. reflexivity.
    - exists [child2; child3]. reflexivity. }
  destruct (proj1 single_clause_bare_many_clauses_array "bool" o "must" Hshape)
    as (doc & one & Hdoc & Hget1 & _ & Hone & _);
    [simpl; tauto | reflexivity |].
  destruct (proj1 single_clause_bare_many_clauses_array "bool" o "should" Hshape)
    as (doc' & many & Hdoc' & Hget2 & _ & _ & Hmany);
    [simpl; tauto | reflexivity |].
  rewrite Hdoc in Hdoc'. inversion Hdoc'; subst doc'.
  assert (E1 : one = [child1]).
  { change (get o "must") with (VArr (map VQuery [child1])) in Hget1.
    inversion Hget1 as [H]. destruct one as [|x [|y r]]; inversion H.
    reflexivity. }
  assert (E2 : many = [child2; child3]).
  { change (get o "should") with (VArr (map VQuery [child2; child3])) in Hget2.
    inversion Hget2 as [H]. destruct many as [|x [|y [|z r]]]; inversion H.
    reflexivity. }
  exists doc. split; [exact Hdoc|]. split.
  - destruct (Hone child1 E1) as [Hg _]. exact Hg.
  - rewrite E2 in Hmany. apply Hmany. simpl. lia.
Defined.

(** ** The order of the clauses in the document *)

Section ClauseOrder.
Import lodash.

Lemma has_from_get (o o' : obj) (clause : string) :
  clause_arrays o -> clause_arrays o' -> In clause clauses ->
  get o clause = get o' clause -> has o clause = has o' clause.
Proof.
  intros Hinv Hinv' Hin Hget.
  destruct (has o clause) eqn:E, (has o' clause) eqn:E'; try reflexivity.
  - destruct (Hinv clause Hin E) as [children Hch].
    rewrite (get_absent _ _ E'), Hch in Hget. discriminate.
  - destruct (Hinv' clause Hin E') as [children Hch].
    rewrite (get_absent _ _ E), Hch in Hget. discriminate.
Qed.

(** The document depends on the four clause keys only, not on the place
    they have among the options. *)
Lemma toJSON_BoolQuery_ext (type : string) (o o' : obj) :
  (forall clause, In clause clauses ->
     has o clause = has o' clause /\ get o clause = get o' clause) ->
  toJSON (mkQuery BoolQueryC type o) = toJSON (mkQuery BoolQueryC type o').
Proof.
  intros Hsame. rewrite !toJSON_BoolQuery. do 4 f_equal.
  assert (Hp : picked o = picked o').
  { unfold picked, filter. apply filter_ext_in.
    intros clause Hin. now destruct (Hsame clause Hin). }
  rewrite <- Hp. apply map_ext_in. intros clause Hin.
  apply filter_In in Hin. destruct Hin as [Hin _].
  unfold clause_document. now destruct (Hsame clause Hin) as [_ ->].
Qed.

End ClauseOrder.

(** C4.  Whatever calls were made on a new bool query and in whatever
    order, the keys of its document are the clauses that are there, in the
    order must, filter, must_not, should; two sequences of calls that leave
    the same children in each of the four clauses give the same document. *)
Theorem clauses_in_declaration_order :
  forall calls calls' : list BoolQuery.call,
    let this := BoolQuery.after calls BoolQuery.constructor in
    let this' := BoolQuery.after calls' BoolQuery.constructor in
    (exists cleanQryOpts,
        toJSON this = VObj [("bool", VObj cleanQryOpts)] /\
        keys cleanQryOpts
        = lodash.filter ["must"; "filter"; "must_not"; "should"]
            (fun clause => lodash.has (_queryOpts this) clause))
    /\ ((forall clause, In clause clauses ->
           get (_queryOpts this) clause = get (_queryOpts this') clause) ->
        toJSON this = toJSON this').
Proof.
  intros calls calls' this this'. subst this this'.
  destruct (after_constructor calls) as (o & -> & Hinv).
  destruct (after_constructor calls') as (o' & -> & Hinv').
  cbn [_queryOpts]. split.
  - eexists. split; [apply toJSON_BoolQuery|]. apply keys_map_keys.
  - intros Hget. apply toJSON_BoolQuery_ext. intros clause Hin. split.
    + apply has_from_get; auto.
    + auto.
Qed.

(** C4 on two callers that add the same children, one starting with
    [should], the other with [must]: the options keep the order of the
    calls, the documents are equal. *)
Lemma clauses_in_declaration_order_witness :
  let a := VQuery (mkQuery QueryC "match_all" []) in
  let b := VQuery (mkQuery QueryC "term" [("user", VStr "kimchy")]) in
  let this := BoolQuery.after [BoolQuery.Should a; BoolQuery.Must b]
                BoolQuery.constructor in
  let this' := BoolQuery.after [BoolQuery.Must b; BoolQuery.Should a]
                 BoolQuery.constructor in
  keys (_queryOpts this) = ["should"; "must"] /\
  keys (_queryOpts this') = ["must"; "should"] /\
  toJSON this = toJSON this'.
Proof.
  intros a b this this'.
  split; [reflexivity|]. split; [reflexivity|].
  apply (clauses_in_declaration_order
           [BoolQuery.Should a; BoolQuery.Must b]
           [BoolQuery.Must b; BoolQuery.Should a]).
  intros clause Hin. simpl in Hin.
  destruct Hin as [<-|[<-|[<-|[<-|[]]]]]; reflexivity.
Defined.

(** ** Serializing twice *)

Section PlainDocuments.
Import lodash.

Lemma size_get (o : obj) (k : string) : size (get o k) <= sum_values size o.
Proof.
  unfold get. induction o as [|[k0 v0] rest IH]; simpl; [lia|].
  destruct (String.eqb k0 k); lia.
Qed.

Lemma size_unwrap (v : value) : size (unwrap v) <= size v.
Proof.
  destruct v as [| | | | |[|x [|y rest]]| |]; simpl; lia.
Qed.

Lemma size_In (x : value) (items : list value) :
  In x items -> size x <= list_sum (map size items).
Proof.
  induction items as [|y items IH]; simpl; [tauto|].
  intros [->|Hin]; [lia | specialize (IH Hin); lia].
Qed.

Lemma all_values_mapValues (g : value -> value) (n : nat) (o : obj) :
  (forall v, size v <= n -> plain (g v) = true) ->
  sum_values size o <= n ->
  all_values plain (mapValues g o) = true.
Proof.
  intros Hg. induction o as [|[k v] rest IH]; simpl; [reflexivity|].
  intros Hle. rewrite Hg by lia. rewrite IH by lia. reflexivity.
Qed.

(** What the serializer returns is plain data, by induction on the size
    of what it is given. *)
Lemma recursiveToJSON_plain_upto (n : nat) :
  forall v, size v <= n -> plain (recursiveToJSON v) = true.
Proof.
  induction n as [|n IH]; intros v Hsize.
  - destruct v as [| | | | |items|props|[cls type o]]; simpl in Hsize;
      try reflexivity; lia.
  - destruct v as [| | | | |items|props|[cls type o]]; try reflexivity.
    + cbn [recursiveToJSON plain]. apply forallb_forall.
      intros d Hd. apply in_map_iff in Hd. destruct Hd as (x & <- & Hx).
      apply IH. pose proof (size_In x items Hx). simpl in Hsize. lia.
    + cbn [recursiveToJSON plain]. simpl in Hsize.
      apply all_values_mapValues with (n := n); [exact IH | lia].
    + simpl in Hsize. cbn [recursiveToJSON].
      destruct cls.
      * rewrite toJSON_BoolQuery. cbn [plain all_values].
        rewrite andb_true_r.
        induction (picked o) as [|clause rest IHp]; simpl; [reflexivity|].
        rewrite IHp, andb_true_r. unfold clause_document. apply IH.
        pose proof (size_unwrap (get o clause)).
        pose proof (size_get o clause). lia.
      * cbn [toJSON plain all_values]. rewrite andb_true_r.
        apply all_values_mapValues with (n := n); [exact IH | lia].
      * cbn [toJSON plain all_values]. rewrite andb_true_r.
        apply all_values_mapValues with (n := n); [exact IH | lia].
Qed.

(** The document of a clause holds no clause: nothing in it refers back to
    the tree it was made from. *)
Lemma toJSON_plain (q : Query) : plain (toJSON q) = true.
Proof.
  apply (recursiveToJSON_plain_upto (size (VQuery q)) (VQuery q)). lia.
Qed.

End PlainDocuments.

(** ** [toJSON] as it runs in a store *)

Section StoreFacts.

Lemma nth_error_update_same (l : Heap.loc) (c : Heap.cell) (h : Heap.heap) :
  l < length h -> nth_error (Heap.update l c h) l = Some c.
Proof.
  revert l. induction h as [|c0 rest IH]; intros [|l] Hl; simpl in *; try lia.
  - reflexivity.
  - apply IH. lia.
Qed.

Lemma nth_error_update_other (l l' : Heap.loc) (c : Heap.cell) (h : Heap.heap) :
  l' <> l -> nth_error (Heap.update l c h) l' = nth_error h l'.
Proof.
  revert l l'. induction h as [|c0 rest IH]; intros [|l] [|l'] Hne; simpl;
    try reflexivity; try congruence.
  apply IH. congruence.
Qed.

Lemma length_update (l : Heap.loc) (c : Heap.cell) (h : Heap.heap) :
  length (Heap.update l c h) = length h.
Proof.
  revert l. induction h as [|c0 rest IH]; intros [|l]; simpl; auto.
Qed.

Lemma preserved_refl (h : Heap.heap) : Heap.preserved h h.
Proof. intros l c H. exact H. Qed.

Lemma preserved_trans (h1 h2 h3 : Heap.heap) :
  Heap.preserved h1 h2 -> Heap.preserved h2 h3 -> Heap.preserved h1 h3.
Proof. intros H12 H23 l c H. auto. Qed.

Lemma preserved_length (h h' : Heap.heap) :
  Heap.preserved h h' -> length h <= length h'.
Proof.
  intros Hp. destruct (Nat.le_gt_cases (length h) (length h')) as [|Hlt];
    [assumption|].
  destruct (nth_error h (length h')) as [c|] eqn:E.
  - apply Hp in E. apply nth_error_Some in Hlt.
    assert (nth_error h' (length h') <> None) by congruence.
    apply nth_error_Some in H. lia.
  - apply nth_error_None in E. lia.
Qed.

Lemma keeps_hret {A : Type} (n : nat) (a : A) : Heap.keeps n (Heap.hret a).
Proof. intros h h' out _ H. inversion H; subst. split; auto. Qed.

Lemma keeps_hthrow {A : Type} (n : nat) (e : error) : Heap.keeps n (@Heap.hthrow A e).
Proof. intros h h' out _ H. inversion H; subst. split; auto. Qed.

Lemma keeps_outside {A : Type} (n : nat) : Heap.keeps n (@Heap.outside A).
Proof. intros h h' out _ H. discriminate. Qed.

Lemma keeps_hbind {A B : Type} (n : nat) (m : Heap.H A) (k : A -> Heap.H B) :
  Heap.keeps n m -> (forall a, Heap.keeps n (k a)) -> Heap.keeps n (Heap.hbind m k).
Proof.
  intros Hm Hk h h' out Hn Hrun. unfold Heap.hbind in Hrun.
  destruct (m h) as [[h1 [a|e]]|] eqn:E; try discriminate.
  - destruct (Hm _ _ _ Hn E) as [H1 L1].
    destruct (Hk a h1 h' out) as [H2 L2]; [lia | assumption |].
    split; [|lia]. intros l Hl. rewrite H2, H1; auto.
  - inversion Hrun; subst. eapply Hm; eauto.
Qed.

Lemma keeps_read (n : nat) (l : Heap.loc) : Heap.keeps n (Heap.read l).
Proof.
  intros h h' out _ H. unfold Heap.read in H.
  destruct (nth_error h l); inversion H; subst. split; auto.
Qed.

Lemma keeps_alloc (n : nat) (c : Heap.cell) : Heap.keeps n (Heap.alloc c).
Proof.
  intros h h' out Hn H. inversion H; subst. split.
  - intros l Hl. apply nth_error_app1. lia.
  - rewrite length_app. lia.
Qed.

Lemma keeps_write_property (n : nat) (a : Heap.loc) (k : string) (v : Heap.rvalue) :
  n <= a -> Heap.keeps n (Heap.write_property (Heap.RRef a) k v).
Proof.
  intros Ha h h' out _ H. unfold Heap.write_property in H.
  destruct (nth_error h a) as [[| |]|]; inversion H; subst. split.
  - intros l Hl. apply nth_error_update_other. lia.
  - rewrite length_update. lia.
Qed.

Lemma keeps_read_queryOpts (n : nat) (this : Heap.loc) :
  Heap.keeps n (Heap.read_queryOpts this).
Proof.
  unfold Heap.read_queryOpts.
  apply keeps_hbind; [apply keeps_read|]. intros [| |cls type qo];
    try apply keeps_outside.
  apply keeps_hbind; [apply keeps_read|]. intros [| |];
    auto using keeps_outside, keeps_hret.
Qed.

Lemma keeps_read_type (n : nat) (this : Heap.loc) : Heap.keeps n (Heap.read_type this).
Proof.
  unfold Heap.read_type.
  apply keeps_hbind; [apply keeps_read|].
  intros [| |]; auto using keeps_outside, keeps_hret.
Qed.

Lemma keeps_only_or_all (n : nat) (v : Heap.rvalue) : Heap.keeps n (Heap.only_or_all v).
Proof.
  destruct v; cbn [Heap.only_or_all]; auto using keeps_hret, keeps_hthrow.
  apply keeps_hbind; [apply keeps_read|].
  intros [[|x [|y r]]|props|]; auto using keeps_hret.
  destruct (Heap.rget props "length") as [| | |[|[| |]|]| |];
    auto using keeps_hret.
Qed.

Lemma keeps_each {A B : Type} (n : nat) (body : A -> Heap.H B) (xs : list A) :
  (forall x, Heap.keeps n (body x)) -> Heap.keeps n (Heap.each body xs).
Proof.
  intros Hb. induction xs as [|x rest IH]; cbn [Heap.each].
  - apply keeps_hret.
  - apply keeps_hbind; [apply Hb|]. intros r.
    apply keeps_hbind; [apply IH|]. intros rs. apply keeps_hret.
Qed.

(** The method of the bool query writes to the accumulator alone, and the
    accumulator is a cell of its own. *)
Lemma keeps_BoolQuery_toJSON (n : nat) (rec : Heap.rvalue -> Heap.H Heap.rvalue)
      (this : Heap.loc) :
  (forall v, Heap.keeps n (rec v)) -> Heap.keeps n (Heap.BoolQuery_toJSON rec this).
Proof.
  intros Hrec h h' out Hn Hrun.
  unfold Heap.BoolQuery_toJSON in Hrun.
  unfold Heap.hbind at 1 in Hrun.
  destruct (Heap.read_queryOpts this h) as [[h1 [props|e]]|] eqn:E1;
    try discriminate.
  2:{ inversion Hrun; subst. eapply keeps_read_queryOpts; eauto. }
  destruct (keeps_read_queryOpts n this _ _ _ Hn E1) as [K1 L1].
  unfold Heap.hbind at 1 in Hrun. unfold Heap.alloc at 1 in Hrun.
  set (acc := length h1) in *.
  set (h2 := h1 ++ [Heap.CObject []]) in *.
  assert (K2 : forall l, l < n -> nth_error h2 l = nth_error h l).
  { intros l Hl. unfold h2. rewrite nth_error_app1 by lia. auto. }
  assert (L2 : length h <= length h2).
  { unfold h2. rewrite length_app. simpl. lia. }
  revert Hrun.
  match goal with
  | |- Heap.hbind ?loop ?rest h2 = _ -> _ =>
      assert (Hloop : Heap.keeps n loop);
      [| assert (Hrest : forall u, Heap.keeps n (rest u)) ]
  end.
  - apply keeps_each. intros clause.
    apply keeps_hbind; [apply keeps_read_queryOpts|]. intros props'.
    apply keeps_hbind; [apply keeps_only_or_all|]. intros argument.
    apply keeps_hbind; [apply Hrec|]. intros document.
    apply keeps_write_property. unfold acc. lia.
  - intros u. apply keeps_hbind; [apply keeps_read_type|].
    intros type. apply keeps_alloc.
  - intros Hrun.
    destruct (keeps_hbind n _ _ Hloop Hrest h2 h' out) as [K3 L3];
      [lia | exact Hrun |].
    split; [|lia]. intros l Hl. rewrite K3, K2; auto.
Qed.

Lemma keeps_Query_toJSON (n : nat) (rec : Heap.rvalue -> Heap.H Heap.rvalue)
      (this : Heap.loc) :
  (forall v, Heap.keeps n (rec v)) -> Heap.keeps n (Heap.Query_toJSON rec this).
Proof.
  intros Hrec. unfold Heap.Query_toJSON.
  apply keeps_hbind; [apply keeps_read|].
  intros [| |cls type qo]; try apply keeps_outside.
  apply keeps_hbind; [apply Hrec|]. intros document.
  apply keeps_hbind; [apply keeps_read_type|]. intros type'.
  apply keeps_alloc.
Qed.

Lemma keeps_dispatch_toJSON (n : nat) (rec : Heap.rvalue -> Heap.H Heap.rvalue)
      (this : Heap.loc) :
  (forall v, Heap.keeps n (rec v)) -> Heap.keeps n (Heap.dispatch_toJSON rec this).
Proof.
  intros Hrec. unfold Heap.dispatch_toJSON.
  apply keeps_hbind; [apply keeps_read|].
  intros [| |[| |] type qo];
    auto using keeps_outside, keeps_BoolQuery_toJSON, keeps_Query_toJSON.
Qed.

(** The serializer, to any depth and on any store, keeps every cell that
    was there. *)
Lemma keeps_recursiveToJSON (depth : nat) :
  forall (n : nat) (v : Heap.rvalue), Heap.keeps n (Heap.recursiveToJSON depth v).
Proof.
  induction depth as [|depth IH]; intros n v; cbn [Heap.recursiveToJSON].
  - apply keeps_outside.
  - destruct v; try apply keeps_hret.
    apply keeps_hbind; [apply keeps_read|].
    intros [items|props|cls type qo].
    + apply keeps_hbind; [apply keeps_each; auto|].
      intros docs. apply keeps_alloc.
    + apply keeps_hbind.
      * apply keeps_each. intros kv.
        apply keeps_hbind; [apply IH|]. intros d. apply keeps_hret.
      * intros docs. apply keeps_alloc.
    + apply keeps_dispatch_toJSON. auto.
Qed.

Lemma run_preserves {A : Type} (m : Heap.H A) (h h' : Heap.heap)
      (out : completion A) :
  (forall n, Heap.keeps n m) -> m h = Some (h', out) ->
  Heap.preserved h h' /\ length h <= length h'.
Proof.
  intros Hk Hrun.
  destruct (Hk (length h) h h' out) as [K L]; [lia | assumption |].
  split; [|assumption].
  intros l c Hl. rewrite K; [assumption|].
  apply nth_error_Some. congruence.
Qed.

Lemma preserved_nth (h h' : Heap.heap) (l : nat) :
  Heap.preserved h h' -> l < length h -> nth_error h' l = nth_error h l.
Proof.
  intros Hp Hl. destruct (nth_error h l) as [c|] eqn:E.
  - now apply Hp.
  - apply nth_error_None in E. lia.
Qed.

Lemma preserved_update (h hc : Heap.heap) (a : Heap.loc) (c : Heap.cell) :
  length h <= a -> Heap.preserved h hc -> Heap.preserved h (Heap.update a c hc).
Proof.
  intros Ha Hp l c0 Hl.
  rewrite nth_error_update_other; [now apply Hp|].
  assert (l < length h) by (apply nth_error_Some; congruence). lia.
Qed.

Lemma load_items_ext (f g : Heap.rvalue -> option value) (items : list Heap.rvalue) :
  (forall x t, f x = Some t -> g x = Some t) ->
  forall ts, Heap.load_items f items = Some ts -> Heap.load_items g items = Some ts.
Proof.
  intros Hfg. induction items as [|x rest IH]; intros ts H; simpl in *;
    [assumption|].
  destruct (f x) as [t|] eqn:E; [|discriminate].
  destruct (Heap.load_items f rest) as [ts'|]; [|discriminate].
  now rewrite (Hfg _ _ E), (IH _ eq_refl).
Qed.

Lemma load_props_ext (f g : Heap.rvalue -> option value) (props : Heap.rprops) :
  (forall x t, f x = Some t -> g x = Some t) ->
  forall o, Heap.load_props f props = Some o -> Heap.load_props g props = Some o.
Proof.
  intros Hfg. induction props as [|[k x] rest IH]; intros o H; simpl in *;
    [assumption|].
  destruct (f x) as [t|] eqn:E; [|discriminate].
  destruct (Heap.load_props f rest) as [ts'|]; [|discriminate].
  now rewrite (Hfg _ _ E), (IH _ eq_refl).
Qed.

(** A tree read from a store is read from every store that preserves it. *)
Lemma load_preserved (h h' : Heap.heap) :
  Heap.preserved h h' ->
  forall n v t, Heap.load n h v = Some t -> Heap.load n h' v = Some t.
Proof.
  intros Hp. induction n as [|n IH]; intros v t H; destruct v; simpl in *;
    try assumption.
  destruct (nth_error h l) as [c|] eqn:E; [|discriminate].
  rewrite (Hp _ _ E). destruct c as [items|props|cls type qo].
  - destruct (Heap.load_items (Heap.load n h) items) as [ts|] eqn:Ei;
      [|discriminate].
    now rewrite (load_items_ext _ _ items (IH) _ Ei).
  - destruct (Heap.load_props (Heap.load n h) props) as [o|] eqn:Ei;
      [|discriminate].
    now rewrite (load_props_ext _ _ props (IH) _ Ei).
  - destruct (Heap.load n h (Heap.RRef qo)) as [t'|] eqn:Ei; [|discriminate].
    now rewrite (IH _ _ Ei).
Qed.

Lemma load_ref (n : nat) (h : Heap.heap) (l : Heap.loc) :
  Heap.load (S n) h (Heap.RRef l)
  = match nth_error h l with
    | Some (Heap.CArray items) =>
        option_map VArr (Heap.load_items (Heap.load n h) items)
    | Some (Heap.CObject props) =>
        option_map VObj (Heap.load_props (Heap.load n h) props)
    | Some (Heap.CInstance cls type qo) =>
        match Heap.load n h (Heap.RRef qo) with
        | Some (VObj o) => Some (VQuery (mkQuery cls type o))
        | _ => None
        end
    | None => None
    end.
Proof. reflexivity. Qed.

(** A tree read within a depth is read within every greater depth. *)
Lemma load_deeper (h : Heap.heap) :
  forall n v t, Heap.load n h v = Some t -> Heap.load (S n) h v = Some t.
Proof.
  induction n as [|n IH]; intros v t H; destruct v;
    try (simpl in *; assumption); try discriminate.
  rewrite load_ref in H. rewrite load_ref.
  destruct (nth_error h l) as [[items|props|cls type qo]|]; try discriminate.
  - destruct (Heap.load_items (Heap.load n h) items) as [ts|] eqn:Ei;
      [|discriminate].
    now rewrite (load_items_ext _ _ items (IH) _ Ei).
  - destruct (Heap.load_props (Heap.load n h) props) as [o|] eqn:Ei;
      [|discriminate].
    now rewrite (load_props_ext _ _ props (IH) _ Ei).
  - destruct (Heap.load n h (Heap.RRef qo)) as [t'|] eqn:Ei; [|discriminate].
    now rewrite (IH _ _ Ei).
Qed.

Lemma load_depth_le (h : Heap.heap) (n m : nat) (v : Heap.rvalue) (t : value) :
  n <= m -> Heap.load n h v = Some t -> Heap.load m h v = Some t.
Proof.
  intros Hle H. induction Hle; [assumption|]. now apply load_deeper.
Qed.

Lemma load_props_has (f : Heap.rvalue -> option value) (props : Heap.rprops) :
  forall o k, Heap.load_props f props = Some o ->
    Heap.rhas props k = lodash.has o k.
Proof.
  induction props as [|[k0 x] rest IH]; intros o k H; simpl in H.
  - inversion H. reflexivity.
  - destruct (f x); [|discriminate].
    destruct (Heap.load_props f rest) as [o'|]; [|discriminate].
    inversion H; subst. simpl.
    destruct (String.eqb k0 k); [reflexivity | now apply IH].
Qed.

Lemma load_props_get (f : Heap.rvalue -> option value) (props : Heap.rprops) :
  forall o k, Heap.load_props f props = Some o ->
    Heap.rhas props k = true ->
    f (Heap.rget props k) = Some (get o k).
Proof.
  unfold get.
  induction props as [|[k0 x] rest IH]; intros o k H Hhas; simpl in *;
    [discriminate|].
  destruct (f x) eqn:E; [|discriminate].
  destruct (Heap.load_props f rest) as [o'|]; [|discriminate].
  inversion H; subst. simpl.
  destruct (String.eqb k0 k); [assumption | now apply IH].
Qed.

Lemma load_items_length (f : Heap.rvalue -> option value) (items : list Heap.rvalue) :
  forall ts, Heap.load_items f items = Some ts -> length ts = length items.
Proof.
  induction items as [|x rest IH]; intros ts H; simpl in H.
  - inversion H. reflexivity.
  - destruct (f x); [|discriminate].
    destruct (Heap.load_items f rest) as [ts'|]; [|discriminate].
    inversion H; subst. simpl. f_equal. now apply IH.
Qed.

(** What a value that stands for an array is. *)
Lemma load_array (n : nat) (h : Heap.heap) (v : Heap.rvalue) (ts : list value) :
  Heap.load n h v = Some (VArr ts) ->
  exists la n' items,
    v = Heap.RRef la /\ n = S n' /\
    nth_error h la = Some (Heap.CArray items) /\
    Heap.load_items (Heap.load n' h) items = Some ts.
Proof.
  intros H. destruct n as [|n']; destruct v as [| | | | |l]; simpl in H;
    try discriminate.
  destruct (nth_error h l) as [[items|props|cls type qo]|] eqn:E;
    try discriminate.
  - destruct (Heap.load_items (Heap.load n' h) items) as [ts'|] eqn:Ei;
      [|discriminate].
    inversion H; subst. exists l, n', items. auto.
  - destruct (Heap.load_props (Heap.load n' h) props); discriminate.
  - destruct (Heap.load n' h (Heap.RRef qo)) as [[| | | | | | |]|]; discriminate.
Qed.

(** What a value that stands for a plain object is. *)
Lemma load_object (n : nat) (h : Heap.heap) (v : Heap.rvalue) (o : obj) :
  Heap.load n h v = Some (VObj o) ->
  exists lo n' props,
    v = Heap.RRef lo /\ n = S n' /\
    nth_error h lo = Some (Heap.CObject props) /\
    Heap.load_props (Heap.load n' h) props = Some o.
Proof.
  intros H. destruct n as [|n']; destruct v as [| | | | |l]; simpl in H;
    try discriminate.
  destruct (nth_error h l) as [[items|props|cls type qo]|] eqn:E;
    try discriminate.
  - destruct (Heap.load_items (Heap.load n' h) items); discriminate.
  - destruct (Heap.load_props (Heap.load n' h) props) as [o'|] eqn:Ei;
      [|discriminate].
    inversion H; subst. exists l, n', props. auto.
  - destruct (Heap.load n' h (Heap.RRef qo)) as [[| | | | | | |]|]; discriminate.
Qed.

Lemma from_cells_later (b b' : nat) (hp hp2 : Heap.heap) (P : Heap.heap -> Prop) :
  Heap.from_cells b hp P ->
  b' <= b -> Heap.preserved hp hp2 ->
  Heap.from_cells b' hp2 P.
Proof.
  intros HP Hb Hp hp' Hagree. apply HP. intros l Hl1 Hl2.
  rewrite Hagree; [| lia | pose proof (preserved_length _ _ Hp); lia].
  now apply preserved_nth.
Qed.

Lemma serializes_le (n m : nat) (rec : Heap.rvalue -> Heap.H Heap.rvalue) :
  m <= n -> serializes n rec -> serializes m rec.
Proof.
  intros Hle Hser hc x tx Hload Hwf.
  apply Hser; [|assumption]. now apply (load_depth_le hc m n).
Qed.

Lemma load_items_deeper (h : Heap.heap) (n m : nat) (items : list Heap.rvalue)
      (ts : list value) :
  n <= m -> Heap.load_items (Heap.load n h) items = Some ts ->
  Heap.load_items (Heap.load m h) items = Some ts.
Proof.
  intros Hle. apply load_items_ext. intros x t. now apply load_depth_le.
Qed.

Lemma load_props_deeper (h : Heap.heap) (n m : nat) (props : Heap.rprops) (o : obj) :
  n <= m -> Heap.load_props (Heap.load n h) props = Some o ->
  Heap.load_props (Heap.load m h) props = Some o.
Proof.
  intros Hle. apply load_props_ext. intros x t. now apply load_depth_le.
Qed.

Lemma load_props_app (f : Heap.rvalue -> option value) (p q : Heap.rprops) :
  forall o1 o2,
    Heap.load_props f p = Some o1 -> Heap.load_props f q = Some o2 ->
    Heap.load_props f (p ++ q) = Some (o1 ++ o2).
Proof.
  induction p as [|[k x] rest IH]; intros o1 o2 H1 H2; simpl in *.
  - inversion H1. assumption.
  - destruct (f x); [|discriminate].
    destruct (Heap.load_props f rest) as [o'|]; [|discriminate].
    inversion H1; subst. now rewrite (IH _ _ eq_refl H2).
Qed.

Lemma rhas_app (p q : Heap.rprops) (k : string) :
  Heap.rhas (p ++ q) k = Heap.rhas p k || Heap.rhas q k.
Proof.
  induction p as [|[k0 v0] rest IH]; simpl; [reflexivity|].
  destruct (String.eqb k0 k); [reflexivity | exact IH].
Qed.

Lemma rset_absent (p : Heap.rprops) (k : string) (v : Heap.rvalue) :
  Heap.rhas p k = false -> Heap.rset p k v = p ++ [(k, v)].
Proof.
  induction p as [|[k0 v0] rest IH]; simpl; [reflexivity|].
  destruct (String.eqb k0 k); [discriminate|].
  intros H. now rewrite IH.
Qed.

(** The elements of an array, serialized one after the other. *)
Lemma each_items_serializes (n : nat) (rec : Heap.rvalue -> Heap.H Heap.rvalue) :
  serializes n rec -> (forall k v, Heap.keeps k (rec v)) ->
  forall items ts hc,
    Heap.load_items (Heap.load n hc) items = Some ts ->
    forallb well_formed ts = true ->
    exists h' ds,
      Heap.each rec items hc = Some (h', Normal ds) /\
      Heap.from_cells (length hc) h'
        (fun hp' => exists m,
             Heap.load_items (Heap.load m hp') ds = Some (map recursiveToJSON ts)).
Proof.
  intros Hser Hkeep.
  induction items as [|x rest IH]; intros ts hc Hload Hwf; simpl in Hload.
  - inversion Hload; subst. exists hc, []. split; [reflexivity|].
    intros hp' _. exists 0. reflexivity.
  - destruct (Heap.load n hc x) as [t|] eqn:Ex; [|discriminate].
    destruct (Heap.load_items (Heap.load n hc) rest) as [ts'|] eqn:Er;
      [|discriminate].
    inversion Hload; subst ts. simpl in Hwf.
    apply andb_true_iff in Hwf. destruct Hwf as [Hwx Hwr].
    destruct (Hser hc x t Ex Hwx) as (h1 & d & Hrun & Hst).
    destruct (run_preserves (rec x) hc h1 _ (fun k => Hkeep k x) Hrun)
      as [Hp1 L1].
    assert (Er1 : Heap.load_items (Heap.load n h1) rest = Some ts').
    { revert Er. apply load_items_ext. apply load_preserved. exact Hp1. }
    destruct (IH ts' h1 Er1 Hwr) as (h2 & ds & Hrun2 & Hst2).
    destruct (run_preserves (Heap.each rec rest) h1 h2 _
                (fun k => keeps_each k rec rest (Hkeep k)) Hrun2) as [Hp2 L2].
    exists h2, (d :: ds). split.
    + cbn [Heap.each]. unfold Heap.hbind at 1. rewrite Hrun.
      unfold Heap.hbind at 1. rewrite Hrun2. reflexivity.
    + intros hp' Hag.
      destruct (Hst hp') as [m1 Hm1].
      { intros l Hl1 Hl2. rewrite Hag by lia. now apply preserved_nth. }
      destruct (Hst2 hp') as [m2 Hm2].
      { intros l Hl1 Hl2. apply Hag; lia. }
      exists (Nat.max m1 m2). simpl.
      rewrite (load_depth_le hp' m1 (Nat.max m1 m2) d _ (Nat.le_max_l _ _) Hm1).
      rewrite (load_items_deeper hp' m2 (Nat.max m1 m2) ds _ (Nat.le_max_r _ _) Hm2).
      reflexivity.
Qed.

(** The values of a plain object, serialized one after the other. *)
Lemma each_props_serializes (n : nat) (rec : Heap.rvalue -> Heap.H Heap.rvalue) :
  serializes n rec -> (forall k v, Heap.keeps k (rec v)) ->
  forall props o hc,
    Heap.load_props (Heap.load n hc) props = Some o ->
    all_values well_formed o = true ->
    exists h' ds,
      Heap.each (fun kv => Heap.hbind (rec (snd kv))
                             (fun document => Heap.hret (fst kv, document)))
                props hc
      = Some (h', Normal ds) /\
      Heap.from_cells (length hc) h'
        (fun hp' => exists m,
             Heap.load_props (Heap.load m hp') ds
             = Some (mapValues recursiveToJSON o)).
Proof.
  intros Hser Hkeep.
  set (body := fun kv : string * Heap.rvalue =>
                 Heap.hbind (rec (snd kv))
                   (fun document => Heap.hret (fst kv, document))).
  assert (Hbody : forall k kv, Heap.keeps k (body kv)).
  { intros k kv. apply keeps_hbind; [apply Hkeep|]. intros d. apply keeps_hret. }
  induction props as [|[key x] rest IH]; intros o hc Hload Hwf; simpl in Hload.
  - inversion Hload; subst. exists hc, []. split; [reflexivity|].
    intros hp' _. exists 0. reflexivity.
  - destruct (Heap.load n hc x) as [t|] eqn:Ex; [|discriminate].
    destruct (Heap.load_props (Heap.load n hc) rest) as [o'|] eqn:Er;
      [|discriminate].
    inversion Hload; subst o. simpl in Hwf.
    apply andb_true_iff in Hwf. destruct Hwf as [Hwx Hwr].
    destruct (Hser hc x t Ex Hwx) as (h1 & d & Hrun & Hst).
    destruct (run_preserves (rec x) hc h1 _ (fun k => Hkeep k x) Hrun)
      as [Hp1 L1].
    assert (Er1 : Heap.load_props (Heap.load n h1) rest = Some o').
    { revert Er. apply load_props_ext. apply load_preserved. exact Hp1. }
    destruct (IH o' h1 Er1 Hwr) as (h2 & ds & Hrun2 & Hst2).
    destruct (run_preserves (Heap.each body rest) h1 h2 _
                (fun k => keeps_each k body rest (Hbody k)) Hrun2) as [Hp2 L2].
    exists h2, ((key, d) :: ds). split.
    + cbn [Heap.each]. unfold Heap.hbind at 1. unfold body at 1.
      cbn [fst snd]. unfold Heap.hbind at 1. rewrite Hrun.
      unfold Heap.hret at 1. unfold Heap.hbind at 1. rewrite Hrun2. reflexivity.
    + intros hp' Hag.
      destruct (Hst hp') as [m1 Hm1].
      { intros l Hl1 Hl2. rewrite Hag by lia. now apply preserved_nth. }
      destruct (Hst2 hp') as [m2 Hm2].
      { intros l Hl1 Hl2. apply Hag; lia. }
      exists (Nat.max m1 m2). simpl.
      rewrite (load_depth_le hp' m1 (Nat.max m1 m2) d _ (Nat.le_max_l _ _) Hm1).
      rewrite (load_props_deeper hp' m2 (Nat.max m1 m2) ds _ (Nat.le_max_r _ _) Hm2).
      reflexivity.
Qed.

Lemma well_formed_unwrap (ts : list value) :
  forallb well_formed ts = true -> well_formed (unwrap (VArr ts)) = true.
Proof.
  intros H. destruct ts as [|t1 [|t2 rest]]; simpl in *; try assumption.
  now rewrite andb_true_r in H.
Qed.

Lemma all_values_get (p : value -> bool) (o : obj) (k : string) :
  all_values p o = true -> lodash.has o k = true -> p (get o k) = true.
Proof.
  unfold get. induction o as [|[k0 v0] rest IH]; simpl; [discriminate|].
  intros Hall Hhas. apply andb_true_iff in Hall. destruct Hall as [Hv Hrest].
  destruct (String.eqb k0 k); auto.
Qed.

(** The choice between the only element and the array, on an array. *)
Lemma only_or_all_array (n : nat) (hc : Heap.heap) (la : Heap.loc)
      (items : list Heap.rvalue) (ts : list value) :
  nth_error hc la = Some (Heap.CArray items) ->
  Heap.load_items (Heap.load n hc) items = Some ts ->
  exists argument,
    Heap.only_or_all (Heap.RRef la) hc = Some (hc, Normal argument) /\
    Heap.load (S n) hc argument = Some (unwrap (VArr ts)).
Proof.
  intros Hcell Hload.
  assert (Hwhole : Heap.load (S n) hc (Heap.RRef la) = Some (VArr ts)).
  { rewrite load_ref, Hcell, Hload. reflexivity. }
  unfold Heap.only_or_all, Heap.hbind, Heap.read. rewrite Hcell.
  destruct items as [|x [|y rest]]; simpl in Hload.
  - inversion Hload; subst. exists (Heap.RRef la). auto.
  - destruct (Heap.load n hc x) as [t|] eqn:Ex; [|discriminate].
    inversion Hload; subst. exists x. split; [reflexivity|].
    now apply load_deeper.
  - destruct (Heap.load n hc x) as [t1|]; [|discriminate].
    destruct (Heap.load n hc y) as [t2|]; [|discriminate].
    destruct (Heap.load_items (Heap.load n hc) rest) as [tr|]; [|discriminate].
    inversion Hload; subst. exists (Heap.RRef la). auto.
Qed.

Section BoolQueryRun.
Variables (rec : Heap.rvalue -> Heap.H Heap.rvalue) (n : nat).
Hypothesis Hser : serializes (S n) rec.
Hypothesis Hkeep : forall k v, Heap.keeps k (rec v).

Variables (h : Heap.heap) (this qo : Heap.loc) (cls : qclass) (type : string)
          (props : Heap.rprops) (o : obj).
Hypothesis Hthis : nth_error h this = Some (Heap.CInstance cls type qo).
Hypothesis Hqo : nth_error h qo = Some (Heap.CObject props).
Hypothesis Hprops : Heap.load_props (Heap.load n h) props = Some o.
Hypothesis Hwf : all_values well_formed o = true.

Lemma read_queryOpts_preserved (hc : Heap.heap) :
  Heap.preserved h hc ->
  Heap.read_queryOpts this hc = Some (hc, Normal props).
Proof.
  intros Hp. unfold Heap.read_queryOpts, Heap.hbind, Heap.read.
  rewrite (Hp _ _ Hthis). rewrite (Hp _ _ Hqo). reflexivity.
Qed.

Lemma read_type_preserved (hc : Heap.heap) :
  Heap.preserved h hc -> Heap.read_type this hc = Some (hc, Normal type).
Proof.
  intros Hp. unfold Heap.read_type, Heap.hbind, Heap.read.
  rewrite (Hp _ _ Hthis). reflexivity.
Qed.

(** The callback of [_.reduce], once per picked clause: each call adds the
    clause's document to the accumulator, behind those already there. *)
Lemma reduce_callbacks :
  forall (cs : list string) (accprops : Heap.rprops) (done : obj) (hc : Heap.heap),
    Heap.preserved h hc ->
    nth_error hc (length h) = Some (Heap.CObject accprops) ->
    (forall c, In c cs ->
       lodash.has o c = true /\ lodash.isArray (get o c) = true) ->
    NoDup cs ->
    (forall c, In c cs -> Heap.rhas accprops c = false) ->
    Heap.from_cells (S (length h)) hc
      (fun hp' => exists m,
           Heap.load_props (Heap.load m hp') accprops = Some done) ->
    exists h' accprops' units,
      Heap.each
        (fun clause =>
           Heap.hbind (Heap.read_queryOpts this)
             (fun _queryOpts =>
                Heap.hbind (Heap.only_or_all (Heap.rget _queryOpts clause))
                  (fun argument =>
                     Heap.hbind (rec argument)
                       (fun document =>
                          Heap.write_property (Heap.RRef (length h))
                            clause document))))
        cs hc
      = Some (h', Normal units) /\
      Heap.preserved h h' /\
      nth_error h' (length h) = Some (Heap.CObject accprops') /\
      Heap.from_cells (S (length h)) h'
        (fun hp' => exists m,
             Heap.load_props (Heap.load m hp') accprops'
             = Some (done ++ map (fun c => (c, clause_document o c)) cs)).
Proof.
  induction cs as [|c cs IH];
    intros accprops done hc Hp Hacc Hcs Hnd Hfresh Hdone.
  - exists hc, accprops, []. split; [reflexivity|]. split; [assumption|].
    split; [assumption|]. now rewrite app_nil_r.
  - destruct (Hcs c (or_introl eq_refl)) as [Hhas Harr].
    inversion Hnd as [|? ? Hnotin Hnd']; subst.
    (* the read of the clause *)
    assert (Hrhas : Heap.rhas props c = true)
      by now rewrite (load_props_has _ props o c Hprops).
    pose proof (load_props_get _ props o c Hprops Hrhas) as Hcq.
    destruct (get o c) as [| | | | |ts| |] eqn:Eget; try discriminate Harr.
    destruct (load_array n h _ ts Hcq) as (la & n' & items & Ecq & En & Hla & Hitems).
    assert (Hwts : forallb well_formed ts = true).
    { pose proof (all_values_get well_formed o c Hwf Hhas) as Hw.
      now rewrite Eget in Hw. }
    (* the choice of the argument *)
    assert (Hitems' : Heap.load_items (Heap.load n' hc) items = Some ts).
    { revert Hitems. apply load_items_ext. now apply load_preserved. }
    destruct (only_or_all_array n' hc la items ts (Hp _ _ Hla) Hitems')
      as (argument & Hchoice & Harg).
    (* the serializer *)
    rewrite <- En in Harg.
    destruct (Hser hc argument _ (load_deeper hc n argument _ Harg)
                (well_formed_unwrap ts Hwts))
      as (h1 & d & Hrun & Hst).
    destruct (run_preserves (rec argument) hc h1 _ (fun k => Hkeep k argument) Hrun)
      as [Hp1 L1].
    (* the write to the accumulator *)
    assert (Hlt : length h < length hc)
      by (apply nth_error_Some; congruence).
    set (accprops1 := accprops ++ [(c, d)]).
    set (h2 := Heap.update (length h) (Heap.CObject accprops1) h1).
    assert (Hwrite : Heap.write_property (Heap.RRef (length h)) c d h1
                     = Some (h2, Normal tt)).
    { unfold Heap.write_property. rewrite (Hp1 _ _ Hacc).
      rewrite rset_absent by (apply Hfresh; now left). reflexivity. }
    destruct (IH accprops1 (done ++ [(c, clause_document o c)]) h2)
      as (h' & accprops' & units & Hloop & Hp' & Hacc' & Hdone').
    + apply preserved_update; [lia|]. eapply preserved_trans; eassumption.
    + apply nth_error_update_same. lia.
    + intros c' Hin. apply Hcs. now right.
    + assumption.
    + intros c' Hin. unfold accprops1. rewrite rhas_app.
      rewrite (Hfresh c' (or_intror Hin)). simpl.
      destruct (String.eqb_spec c c'); [subst; contradiction | reflexivity].
    + intros hp' Hag.
      assert (Hag1 : forall l, S (length h) <= l -> l < length h1 ->
                               nth_error hp' l = nth_error h1 l).
      { intros l Hl1 Hl2. rewrite Hag.
        - unfold h2. apply nth_error_update_other. lia.
        - assumption.
        - unfold h2. now rewrite length_update. }
      destruct (Hdone hp') as [m1 Hm1].
      { intros l Hl1 Hl2. rewrite Hag1 by lia. now apply preserved_nth. }
      destruct (Hst hp') as [m2 Hm2].
      { intros l Hl1 Hl2. apply Hag1; lia. }
      exists (Nat.max m1 m2). unfold accprops1.
      apply load_props_app.
      * now apply (load_props_deeper hp' m1 _ accprops done (Nat.le_max_l _ _)).
      * simpl.
        rewrite (load_depth_le hp' m2 (Nat.max m1 m2) d _ (Nat.le_max_r _ _) Hm2).
        unfold clause_document. rewrite Eget. reflexivity.
    + exists h', accprops', (tt :: units).
      split; [|split; [assumption|split; [assumption|]]].
      * cbn [Heap.each]. unfold Heap.hbind at 1.
        unfold Heap.hbind at 1. rewrite (read_queryOpts_preserved hc Hp).
        rewrite Ecq. unfold Heap.hbind at 1. rewrite Hchoice.
        unfold Heap.hbind at 1. rewrite Hrun. rewrite Hwrite.
        unfold Heap.hbind at 1. rewrite Hloop. reflexivity.
      * intros hp' Hag. destruct (Hdone' hp' Hag) as [m Hm]. exists m.
        rewrite Hm. now rewrite <- app_assoc.
Qed.

End BoolQueryRun.

Lemma nth_error_alloc_old (h : Heap.heap) (c : Heap.cell) (l : nat) :
  l < length h -> nth_error (h ++ [c]) l = nth_error h l.
Proof. intros Hl. now apply nth_error_app1. Qed.

Lemma nth_error_alloc_new (h : Heap.heap) (c : Heap.cell) :
  nth_error (h ++ [c]) (length h) = Some c.
Proof. rewrite nth_error_app2 by lia. now rewrite Nat.sub_diag. Qed.

Lemma preserved_alloc (h : Heap.heap) (c : Heap.cell) : Heap.preserved h (h ++ [c]).
Proof.
  intros l c0 Hl. rewrite nth_error_app1; [assumption|].
  apply nth_error_Some. congruence.
Qed.

(** A primitive is its own document. *)
Lemma primitive_serializes (depth : nat) (hc : Heap.heap) (x : Heap.rvalue)
      (tx : value) (n : nat) :
  (forall l, x <> Heap.RRef l) ->
  Heap.load n hc x = Some tx ->
  exists h' d,
    Heap.recursiveToJSON (S depth) x hc = Some (h', Normal d) /\
    Heap.stands_for (length hc) h' d (recursiveToJSON tx).
Proof.
  intros Hprim Hload. exists hc, x.
  destruct x as [| | | | |l]; try (exfalso; now apply (Hprim l));
    (split; [reflexivity|]);
    destruct n; simpl in Hload; inversion Hload; subst;
    intros hp' _; exists 0; reflexivity.
Qed.

(** The method of an instance that is no bool query. *)
Lemma Query_toJSON_serializes (n : nat) (rec : Heap.rvalue -> Heap.H Heap.rvalue)
      (hc : Heap.heap) (this qo : Heap.loc) (cls : qclass) (type : string) (o : obj) :
  serializes n rec -> (forall k v, Heap.keeps k (rec v)) ->
  cls <> BoolQueryC ->
  nth_error hc this = Some (Heap.CInstance cls type qo) ->
  Heap.load n hc (Heap.RRef qo) = Some (VObj o) ->
  all_values well_formed o = true ->
  exists h' d,
    Heap.Query_toJSON rec this hc = Some (h', Normal d) /\
    Heap.stands_for (length hc) h' d (toJSON (mkQuery cls type o)).
Proof.
  intros Hser Hkeep Hcls Hthis Hload Hwf.
  destruct (Hser hc (Heap.RRef qo) (VObj o) Hload Hwf) as (h1 & d & Hrun & Hst).
  destruct (run_preserves (rec (Heap.RRef qo)) hc h1 _
              (fun k => Hkeep k (Heap.RRef qo)) Hrun) as [Hp1 L1].
  exists (h1 ++ [Heap.CObject [(type, d)]]), (Heap.RRef (length h1)). split.
  - unfold Heap.Query_toJSON. unfold Heap.hbind at 1. unfold Heap.read at 1.
    rewrite Hthis. unfold Heap.hbind at 1. rewrite Hrun.
    unfold Heap.hbind at 1. unfold Heap.read_type, Heap.hbind, Heap.read.
    rewrite (Hp1 _ _ Hthis). reflexivity.
  - intros hp' Hag.
    destruct (Hst hp') as [m Hm].
    { intros l Hl1 Hl2. rewrite Hag; [now apply nth_error_alloc_old | lia |].
      rewrite length_app. simpl. lia. }
    exists (S m). rewrite load_ref.
    rewrite Hag; [| lia | rewrite length_app; simpl; lia].
    rewrite nth_error_alloc_new. simpl. rewrite Hm.
    destruct cls; [contradiction | reflexivity | reflexivity].
Qed.

(** The method of a bool query. *)
Lemma BoolQuery_toJSON_serializes (n : nat) (rec : Heap.rvalue -> Heap.H Heap.rvalue)
      (hc : Heap.heap) (this qo : Heap.loc) (type : string)
      (props : Heap.rprops) (o : obj) :
  serializes (S n) rec -> (forall k v, Heap.keeps k (rec v)) ->
  nth_error hc this = Some (Heap.CInstance BoolQueryC type qo) ->
  nth_error hc qo = Some (Heap.CObject props) ->
  Heap.load_props (Heap.load n hc) props = Some o ->
  well_formed (VQuery (mkQuery BoolQueryC type o)) = true ->
  exists h' d,
    Heap.BoolQuery_toJSON rec this hc = Some (h', Normal d) /\
    Heap.stands_for (length hc) h' d (toJSON (mkQuery BoolQueryC type o)).
Proof.
  intros Hser Hkeep Hthis Hqo Hprops Hwf.
  cbn [well_formed] in Hwf. apply andb_true_iff in Hwf.
  destruct Hwf as [Hvals Hshape].
  set (cs := lodash.filter clauses (fun clause => Heap.rhas props clause)).
  assert (Hcs : cs = picked o).
  { unfold cs, picked, lodash.filter. apply filter_ext.
    intros c. now apply load_props_has with (f := Heap.load n hc). }
  set (h0 := hc ++ [Heap.CObject []]).
  destruct (reduce_callbacks rec n Hser Hkeep hc this qo BoolQueryC type props o
              Hthis Hqo Hprops Hvals cs [] [] h0)
    as (h1 & accprops & units & Hloop & Hp1 & Hacc & Hdocs).
  { apply preserved_alloc. }
  { apply nth_error_alloc_new. }
  { intros c Hin. rewrite Hcs in Hin. apply filter_In in Hin.
    destruct Hin as [Hin Hhas]. split; [assumption|].
    rewrite forallb_forall in Hshape. specialize (Hshape c Hin).
    rewrite Hhas in Hshape. exact Hshape. }
  { apply NoDup_filter, clauses_NoDup. }
  { reflexivity. }
  { intros hp' _. exists 0. reflexivity. }
  assert (Hlt : length hc < length h1)
    by (apply nth_error_Some; congruence).
  exists (h1 ++ [Heap.CObject [(type, Heap.RRef (length hc))]]),
    (Heap.RRef (length h1)).
  split.
  - unfold Heap.BoolQuery_toJSON. unfold Heap.hbind at 1.
    rewrite (read_queryOpts_preserved hc this qo BoolQueryC type props Hthis Hqo
               hc (preserved_refl hc)).
    unfold Heap.hbind at 1. unfold Heap.alloc at 1.
    fold cs. fold h0.
    unfold Heap.hbind at 1. rewrite Hloop.
    unfold Heap.hbind at 1.
    rewrite (read_type_preserved hc this qo BoolQueryC type Hthis h1 Hp1).
    reflexivity.
  - intros hp' Hag. rewrite toJSON_BoolQuery, <- Hcs.
    destruct (Hdocs hp') as [m Hm].
    { intros l Hl1 Hl2. rewrite Hag; [now apply nth_error_alloc_old | lia |].
      rewrite length_app. simpl. lia. }
    exists (S (S m)). rewrite load_ref.
    rewrite Hag; [| lia | rewrite length_app; simpl; lia].
    rewrite nth_error_alloc_new. cbn [Heap.load_props]. rewrite load_ref.
    rewrite Hag; [| lia | rewrite length_app; simpl; lia].
    rewrite nth_error_alloc_old by lia. rewrite Hacc, Hm. reflexivity.
Qed.

(** The serializer of the store does what the serializer of the trees
    says, on every value that stands for a well-formed tree within a depth
    below its bound. *)
Lemma recursiveToJSON_serializes (n : nat) :
  forall depth, n < depth -> serializes n (Heap.recursiveToJSON depth).
Proof.
  induction n as [|n IH]; intros depth Hlt hc x tx Hload Hwf;
    (destruct depth as [|depth]; [lia|]).
  - apply primitive_serializes with (n := 0); [|assumption].
    intros l ->. discriminate.
  - destruct x as [| | | | |l];
      try (apply primitive_serializes with (n := S n);
           [intros l0; discriminate | assumption]).
    assert (Hser : serializes n (Heap.recursiveToJSON depth))
      by (apply IH; lia).
    pose proof (fun k v => keeps_recursiveToJSON depth k v) as Hkeep.
    rewrite load_ref in Hload.
    destruct (nth_error hc l) as [[items|props|cls type qo]|] eqn:Hcell;
      [| | |discriminate].
    + (* an array *)
      destruct (Heap.load_items (Heap.load n hc) items) as [ts|] eqn:Hitems;
        [|discriminate].
      inversion Hload; subst tx. cbn [well_formed] in Hwf.
      destruct (each_items_serializes n _ Hser Hkeep items ts hc Hitems Hwf)
        as (h1 & ds & Hrun & Hdocs).
      destruct (run_preserves _ hc h1 _
                  (fun k => keeps_each k _ items (Hkeep k)) Hrun) as [Hp1 L1].
      exists (h1 ++ [Heap.CArray ds]), (Heap.RRef (length h1)). split.
      * cbn [Heap.recursiveToJSON]. unfold Heap.hbind at 1, Heap.read at 1.
        rewrite Hcell. unfold Heap.hbind at 1. rewrite Hrun. reflexivity.
      * intros hp' Hag.
        destruct (Hdocs hp') as [m Hm].
        { intros l0 Hl1 Hl2.
          rewrite Hag; [now apply nth_error_alloc_old | lia |].
          rewrite length_app. simpl. lia. }
        exists (S m). rewrite load_ref.
        rewrite Hag; [| lia | rewrite length_app; simpl; lia].
        rewrite nth_error_alloc_new, Hm. reflexivity.
    + (* a plain object *)
      destruct (Heap.load_props (Heap.load n hc) props) as [o|] eqn:Hprops;
        [|discriminate].
      inversion Hload; subst tx. cbn [well_formed] in Hwf.
      destruct (each_props_serializes n _ Hser Hkeep props o hc Hprops Hwf)
        as (h1 & ds & Hrun & Hdocs).
      assert (Hk : forall k, Heap.keeps k
                     (Heap.each
                        (fun kv => Heap.hbind (Heap.recursiveToJSON depth (snd kv))
                                     (fun document => Heap.hret (fst kv, document)))
                        props)).
      { intros k. apply keeps_each. intros kv.
        apply keeps_hbind; [apply Hkeep|]. intros d. apply keeps_hret. }
      destruct (run_preserves _ hc h1 _ Hk Hrun) as [Hp1 L1].
      exists (h1 ++ [Heap.CObject ds]), (Heap.RRef (length h1)). split.
      * cbn [Heap.recursiveToJSON]. unfold Heap.hbind at 1, Heap.read at 1.
        rewrite Hcell. unfold Heap.hbind at 1. rewrite Hrun. reflexivity.
      * intros hp' Hag.
        destruct (Hdocs hp') as [m Hm].
        { intros l0 Hl1 Hl2.
          rewrite Hag; [now apply nth_error_alloc_old | lia |].
          rewrite length_app. simpl. lia. }
        exists (S m). rewrite load_ref.
        rewrite Hag; [| lia | rewrite length_app; simpl; lia].
        rewrite nth_error_alloc_new, Hm. reflexivity.
    + (* an instance *)
      destruct (Heap.load n hc (Heap.RRef qo)) as [[| | | | | |o|]|] eqn:Hopts;
        try discriminate.
      inversion Hload; subst tx.
      assert (Hrun : Heap.recursiveToJSON (S depth) (Heap.RRef l) hc
                     = match cls with
                       | BoolQueryC =>
                           Heap.BoolQuery_toJSON (Heap.recursiveToJSON depth) l hc
                       | _ => Heap.Query_toJSON (Heap.recursiveToJSON depth) l hc
                       end).
      { cbn [Heap.recursiveToJSON]. unfold Heap.hbind at 1, Heap.read at 1.
        rewrite Hcell. unfold Heap.dispatch_toJSON.
        unfold Heap.hbind at 1, Heap.read at 1. rewrite Hcell.
        destruct cls; reflexivity. }
      rewrite Hrun. cbn [recursiveToJSON].
      destruct cls.
      * destruct (load_object n hc _ o Hopts)
          as (lo & n' & props & Elo & En & Hqo & Hprops).
        inversion Elo; subst lo. subst n.
        now apply BoolQuery_toJSON_serializes with (n := n') (qo := qo)
                                                  (props := props).
      * apply Query_toJSON_serializes with (n := n) (qo := qo);
          try assumption; [discriminate|].
        cbn [well_formed] in Hwf. now rewrite andb_true_r in Hwf.
      * apply Query_toJSON_serializes with (n := n) (qo := qo);
          try assumption; [discriminate|].
        cbn [well_formed] in Hwf. now rewrite andb_true_r in Hwf.
Qed.

(** The call [this.toJSON()] is the serializer applied to the instance. *)
Lemma toJSON_as_recursiveToJSON (depth : nat) (this : Heap.loc) (h : Heap.heap)
      (cls : qclass) (type : string) (qo : Heap.loc) :
  nth_error h this = Some (Heap.CInstance cls type qo) ->
  Heap.recursiveToJSON (S depth) (Heap.RRef this) h = Heap.toJSON depth this h.
Proof.
  intros Hcell. cbn [Heap.recursiveToJSON].
  unfold Heap.hbind at 1, Heap.read at 1. now rewrite Hcell.
Qed.

Lemma load_instance (n : nat) (h : Heap.heap) (this : Heap.loc) (tree : Query) :
  Heap.load n h (Heap.RRef this) = Some (VQuery tree) ->
  exists cls type qo, nth_error h this = Some (Heap.CInstance cls type qo).
Proof.
  intros H. destruct n as [|n]; [discriminate|]. rewrite load_ref in H.
  destruct (nth_error h this) as [[items|props|cls type qo]|]; try discriminate.
  - destruct (Heap.load_items (Heap.load n h) items); discriminate.
  - destruct (Heap.load_props (Heap.load n h) props); discriminate.
  - eauto.
Qed.

(** A value that stands for an object through the cells from [base] on is
    a reference to one of those cells. *)
Lemma stands_for_object_new (base : nat) (hp : Heap.heap) (d : Heap.rvalue)
      (options : obj) :
  Heap.stands_for base hp d (VObj options) ->
  exists lo, d = Heap.RRef lo /\ base <= lo.
Proof.
  intros Hst.
  destruct (Hst (repeat (Heap.CArray []) base ++ skipn base hp)) as [m Hm].
  { intros l Hl1 Hl2.
    rewrite nth_error_app2 by (rewrite repeat_length; lia).
    rewrite repeat_length, nth_error_skipn. f_equal. lia. }
  destruct (load_object m _ d options Hm) as (lo & n' & props & -> & _ & Hlo & _).
  exists lo. split; [reflexivity|].
  destruct (Nat.le_gt_cases base lo) as [|Hlt]; [assumption|].
  rewrite nth_error_app1 in Hlo by (rewrite repeat_length; lia).
  rewrite nth_error_repeat in Hlo by lia. discriminate.
Qed.

(** One call on an instance that stands for a well-formed tree. *)
Lemma toJSON_once (n : nat) (h : Heap.heap) (this : Heap.loc) (tree : Query)
      (depth : nat) :
  Heap.load n h (Heap.RRef this) = Some (VQuery tree) ->
  well_formed (VQuery tree) = true ->
  n <= depth ->
  exists h1 d,
    Heap.toJSON depth this h = Some (h1, Normal d) /\
    Heap.preserved h h1 /\
    Heap.stands_for (length h) h1 d (toJSON tree).
Proof.
  intros Hload Hwf Hle.
  destruct (load_instance n h this tree Hload) as (cls & type & qo & Hcell).
  destruct (recursiveToJSON_serializes n (S depth) (proj2 (Nat.lt_succ_r n depth) Hle)
              h (Heap.RRef this) (VQuery tree) Hload Hwf)
    as (h1 & d & Hrun & Hst).
  rewrite (toJSON_as_recursiveToJSON depth this h cls type qo Hcell) in Hrun.
  exists h1, d. split; [assumption|]. split; [|assumption].
  rewrite <- (toJSON_as_recursiveToJSON depth this h cls type qo Hcell) in Hrun.
  apply (run_preserves _ h h1 _
           (fun k => keeps_recursiveToJSON (S depth) k (Heap.RRef this)) Hrun).
Qed.

End StoreFacts.

(** C8.  [toJSON] writes to no object that was there before the call:
    on every store and for every instance, whether the call returns or
    throws, each cell of the store is the same cell afterwards (what is new
    are the cells of the document).  Called twice in a row on an instance
    that stands for a well-formed clause tree, it completes normally both
    times; the two documents are distinct objects that stand for the same
    tree, the document of the clause tree, and the instance stands for the
    same clause tree after both calls.  On a bool query whose [must] holds
    [null] or [undefined] the call throws a [TypeError], at the read of
    [length], and has allocated the accumulator only. *)
Theorem toJSON_twice_same_document :
  (forall (depth : nat) (this : Heap.loc) (h h' : Heap.heap)
          (out : completion Heap.rvalue),
      Heap.toJSON depth this h = Some (h', out) ->
      Heap.preserved h h' /\ length h <= length h')
  /\ (forall (n : nat) (h : Heap.heap) (this : Heap.loc) (tree : Query)
             (depth : nat),
         Heap.load n h (Heap.RRef this) = Some (VQuery tree) ->
         well_formed (VQuery tree) = true ->
         n <= depth ->
         exists h1 h2 d1 d2 m,
           Heap.toJSON depth this h = Some (h1, Normal d1) /\
           Heap.toJSON depth this h1 = Some (h2, Normal d2) /\
           Heap.preserved h h1 /\
           Heap.preserved h1 h2 /\
           d1 <> d2 /\
           Heap.load m h1 d1 = Some (toJSON tree) /\
           Heap.load m h2 d1 = Some (toJSON tree) /\
           Heap.load m h2 d2 = Some (toJSON tree) /\
           Heap.load n h2 (Heap.RRef this) = Some (VQuery tree))
  /\ (forall (depth : nat) (h : Heap.heap) (this qo : Heap.loc) (type : string)
             (props : Heap.rprops),
         nth_error h this = Some (Heap.CInstance BoolQueryC type qo) ->
         nth_error h qo = Some (Heap.CObject props) ->
         Heap.rhas props "must" = true ->
         Heap.rget props "must" = Heap.RNull
         \/ Heap.rget props "must" = Heap.RUndefined ->
         Heap.toJSON depth this h
         = Some (h ++ [Heap.CObject []], Throw TypeError)).
Proof.
  split; [|split].
  - intros depth this h h' out Hrun.
    apply (run_preserves _ h h' out
             (fun k => keeps_dispatch_toJSON k (Heap.recursiveToJSON depth) this
                         (fun v => keeps_recursiveToJSON depth k v)) Hrun).
  - intros n h this tree depth Hload Hwf Hle.
    destruct (toJSON_once n h this tree depth Hload Hwf Hle)
      as (h1 & d1 & Hrun1 & Hp1 & Hst1).
    pose proof (load_preserved h h1 Hp1 n _ _ Hload) as Hload1.
    destruct (toJSON_once n h1 this tree depth Hload1 Hwf Hle)
      as (h2 & d2 & Hrun2 & Hp2 & Hst2).
    destruct (Hst1 h1) as [m1 Hm1]; [reflexivity|].
    destruct (Hst1 h2) as [m1' Hm1'].
    { intros l _ Hl. now apply preserved_nth. }
    destruct (Hst2 h2) as [m2 Hm2]; [reflexivity|].
    set (m := Nat.max m1 (Nat.max m1' m2)).
    exists h1, h2, d1, d2, m.
    split; [assumption|]. split; [assumption|].
    split; [assumption|]. split; [assumption|].
    split; [|split; [|split; [|split]]].
    + (* the second document is a cell that the first store does not have *)
      destruct (toJSON_single_key tree) as [options Hdoc].
      rewrite Hdoc in Hst2, Hm1.
      destruct (stands_for_object_new _ _ _ _ Hst2) as (l2 & -> & Hl2).
      destruct (load_object m1 h1 d1 _ Hm1) as (l1 & ? & ? & -> & _ & Hl1 & _).
      assert (l1 < length h1) by (apply nth_error_Some; congruence).
      intros E. inversion E. lia.
    + apply (load_depth_le h1 m1 m); [unfold m; lia | assumption].
    + apply (load_depth_le h2 m1' m); [unfold m; lia | assumption].
    + apply (load_depth_le h2 m2 m); [unfold m; lia | assumption].
    + now apply (load_preserved h1 h2 Hp2).
  - intros depth h this qo type props Hthis Hqo Hhas Hnil.
    unfold Heap.toJSON, Heap.dispatch_toJSON.
    unfold Heap.hbind at 1, Heap.read at 1. rewrite Hthis.
    unfold Heap.BoolQuery_toJSON. unfold Heap.hbind at 1.
    rewrite (read_queryOpts_preserved h this qo BoolQueryC type props Hthis Hqo
               h (preserved_refl h)).
    unfold Heap.hbind at 1, Heap.alloc at 1.
    unfold clauses, lodash.filter. cbn [filter]. rewrite Hhas.
    cbn [Heap.each]. unfold Heap.hbind at 1. unfold Heap.hbind at 1.
    unfold Heap.hbind at 1.
    rewrite (read_queryOpts_preserved h this qo BoolQueryC type props Hthis Hqo
               (h ++ [Heap.CObject []]) (preserved_alloc h _)).
    destruct Hnil as [-> | ->]; reflexivity.
Qed.

(** C8 on a store with a bool query that holds one [must] child and two
    [should] children, one child being in both arrays: two calls give two
    objects that stand for the same document, and nothing of the store is
    changed.  The same instance with [null] under [must] throws. *)
Lemma toJSON_twice_same_document_witness :
  let h :=
    [Heap.CObject [];
     Heap.CInstance QueryC "match_all" 0;
     Heap.CArray [Heap.RRef 1];
     Heap.CObject [("user", Heap.RStr "kimchy")];
     Heap.CInstance QueryC "term" 3;
     Heap.CArray [Heap.RRef 1; Heap.RRef 4];
     Heap.CObject [("should", Heap.RRef 5); ("must", Heap.RRef 2)];
     Heap.CInstance BoolQueryC "bool" 6;
     Heap.CObject [("must", Heap.RNull)];
     Heap.CInstance BoolQueryC "bool" 8] in
  let document :=
    VObj [("bool",
           VObj [("must", VObj [("match_all", VObj [])]);
                 ("should",
                  VArr [VObj [("match_all", VObj [])];
                        VObj [("term", VObj [("user", VStr "kimchy")])]])])] in
  (exists h1 h2 d1 d2 m,
      Heap.toJSON 6 7 h = Some (h1, Normal d1) /\
      Heap.toJSON 6 7 h1 = Some (h2, Normal d2) /\
      Heap.preserved h h2 /\
      d1 <> d2 /\
      Heap.load m h2 d1 = Some document /\
      Heap.load m h2 d2 = Some document)
  /\ Heap.toJSON 6 9 h = Some (h ++ [Heap.CObject []], Throw TypeError).
Proof.
  intros h document.
  destruct toJSON_twice_same_document as (_ & Htwice & Hnull).
  split.
  - destruct (Htwice 6 h 7
                (mkQuery BoolQueryC "bool"
                   [("should",
                     VArr [VQuery (mkQuery QueryC "match_all" []);
                           VQuery (mkQuery QueryC "term" [("user", VStr "kimchy")])]);
                    ("must", VArr [VQuery (mkQuery QueryC "match_all" [])])])
                6)
      as (h1 & h2 & d1 & d2 & m & R1 & R2 & P1 & P2 & Hne & _ & L1 & L2 & _).
    + reflexivity.
    + reflexivity.
    + apply le_n.
    + exists h1, h2, d1, d2, m.
      split; [exact R1|]. split; [exact R2|].
      split; [intros l c Hl; apply P2, P1, Hl|].
      split; [exact Hne|]. split; [exact L1 | exact L2].
  - apply (Hnull 6 h 9 8 "bool" [("must", Heap.RNull)]).
    + reflexivity.
    + reflexivity.
    + reflexivity.
    + left. reflexivity.
Defined.

(** ** has_child: [type] and [childType] *)

Section MethodCalls.

(** A name that is no own property resolves to the method of the class. *)
Lemma call_method_resolves (A : Type) (name : string) (method : M A) (this : Query) :
  name <> "type" -> name <> "_queryOpts" ->
  call_method name method this = method this.
Proof.
  intros H1 H2. unfold call_method, own_property.
  destruct (String.eqb_spec name "type"); [contradiction|].
  destruct (String.eqb_spec name "_queryOpts"); [contradiction|].
  reflexivity.
Qed.

(** Were the method of the class reached, it would do what [childType]
    does. *)
Lemma type_method_as_childType (t : value) (this : Query) :
  HasChildQuery.type_method t this = HasChildQuery.childType t this.
Proof. destruct this as [cls type o]. reflexivity. Qed.

End MethodCalls.

(** C10: the alias is shadowed.  On every instance [h] and for every
    argument, [h.type(t)] throws a [TypeError] and stores nothing: [type]
    on the instance is the tag string that [toJSON] reads as [this.type],
    not the method of the class.  [h.childType(t)] stores [t] under
    [child_type] and returns the instance, so the two calls differ in their
    completion, and in the state whenever [child_type] did not hold [t]
    already. *)
Theorem type_call_is_shadowed :
  forall (t : value) (this : Query),
    own_property this "type" = Some (VStr (type_of this)) /\
    HasChildQuery.type t this = (this, Throw TypeError) /\
    HasChildQuery.childType t this
    = (with_queryOpts this (set (_queryOpts this) "child_type" t),
       Normal ReturnThis) /\
    snd (HasChildQuery.type t this) <> snd (HasChildQuery.childType t this) /\
    get (_queryOpts (fst (HasChildQuery.type t this))) "child_type"
    = get (_queryOpts this) "child_type" /\
    get (_queryOpts (fst (HasChildQuery.childType t this))) "child_type" = t.
Proof.
  intros t [cls type o]. cbn.
  split; [reflexivity|]. split; [reflexivity|]. split; [reflexivity|].
  split; [discriminate|]. split; [reflexivity|]. apply get_set_same.
Qed.

(** ** has_child: an argument that is [undefined] *)

Section OptionsInDocument.
Import lodash.

Lemma has_mapValues (f : value -> value) (o : obj) (k : string) :
  has (mapValues f o) k = has o k.
Proof.
  induction o as [|[k0 v0] rest IH]; simpl; [reflexivity|].
  destruct (String.eqb k0 k); [reflexivity | exact IH].
Qed.

Lemma get_mapValues (f : value -> value) (o : obj) (k : string) :
  has o k = true -> get (mapValues f o) k = f (get o k).
Proof.
  unfold get. induction o as [|[k0 v0] rest IH]; simpl; [discriminate|].
  destruct (String.eqb k0 k); [reflexivity | exact IH].
Qed.

(** In the document of a has_child query an option that was set is a key
    of the document and holds the serialized value of the option. *)
Lemma set_option_in_document (type : string) (o : obj) (k : string) (v : value) :
  exists options,
    toJSON (mkQuery HasChildQueryC type (set o k v)) = VObj [(type, VObj options)]
    /\ has options k = true
    /\ get options k = recursiveToJSON v.
Proof.
  eexists. split; [reflexivity|]. split.
  - rewrite has_mapValues. apply has_set_same.
  - rewrite get_mapValues by apply has_set_same. now rewrite get_set_same.
Qed.

End OptionsInDocument.

(** C5, as stated, fails: on an instance without a child type,
    [childType(undefined)] stores the key [child_type]; the options are no
    longer what they were, and the document that [toJSON] returns has the
    key [child_type] too, holding [undefined]. *)
Lemma childType_undefined_stores_key :
  let this := mkQuery HasChildQueryC "has_child" [] in
  let this' := fst (HasChildQuery.childType VUndefined this) in
  lodash.has (_queryOpts this) "child_type" = false /\
  lodash.has (_queryOpts this') "child_type" = true /\
  _queryOpts this' = [("child_type", VUndefined)] /\
  ~ (lodash.has (_queryOpts this') "child_type" = false) /\
  this' <> this /\
  toJSON this = VObj [("has_child", VObj [])] /\
  toJSON this' = VObj [("has_child", VObj [("child_type", VUndefined)])] /\
  lodash.has [("child_type", VUndefined)] "child_type" = true.
Proof.
  cbn. repeat split; discriminate.
Qed.

(** C5, amended.  The constructor stores no [child_type] when its optional
    argument [type] is [undefined] or [null]: the instance stays as [super]
    left it, and so does its document.  The setters [childType],
    [minChildren] and [maxChildren] store their argument under
    [child_type], [min_children] and [max_children] whatever it is,
    [undefined] included, and return the instance; the key is there
    afterwards and holds the argument, and it is a key of the document that
    [toJSON] returns, holding the serialized argument ([undefined] for
    [undefined]). *)
Theorem optional_type_skipped_setters_store :
  forall (type : string) (o : obj) (v : value),
    let this := mkQuery HasChildQueryC type o in
    HasChildQuery.constructor_after_super VUndefined this = (this, Normal tt) /\
    HasChildQuery.constructor_after_super VNull this = (this, Normal tt) /\
    HasChildQuery.childType v this
    = (mkQuery HasChildQueryC type (set o "child_type" v), Normal ReturnThis) /\
    HasChildQuery.minChildren v this
    = (mkQuery HasChildQueryC type (set o "min_children" v), Normal ReturnThis) /\
    HasChildQuery.maxChildren v this
    = (mkQuery HasChildQueryC type (set o "max_children" v), Normal ReturnThis) /\
    (lodash.has (set o "child_type" v) "child_type" = true /\
     get (set o "child_type" v) "child_type" = v /\
     lodash.has (set o "min_children" v) "min_children" = true /\
     get (set o "min_children" v) "min_children" = v /\
     lodash.has (set o "max_children" v) "max_children" = true /\
     get (set o "max_children" v) "max_children" = v) /\
    (exists options,
        toJSON (fst (HasChildQuery.childType v this)) = VObj [(type, VObj options)]
        /\ lodash.has options "child_type" = true
        /\ get options "child_type" = recursiveToJSON v) /\
    (exists options,
        toJSON (fst (HasChildQuery.minChildren v this)) = VObj [(type, VObj options)]
        /\ lodash.has options "min_children" = true
        /\ get options "min_children" = recursiveToJSON v) /\
    (exists options,
        toJSON (fst (HasChildQuery.maxChildren v this)) = VObj [(type, VObj options)]
        /\ lodash.has options "max_children" = true
        /\ get options "max_children" = recursiveToJSON v) /\
    recursiveToJSON VUndefined = VUndefined.
Proof.
  intros type o v this. subst this.
  split; [reflexivity|]. split; [reflexivity|]. split; [reflexivity|].
  split; [reflexivity|]. split; [reflexivity|].
  split; [repeat split; auto using has_set_same, get_set_same|].
  split; [apply set_option_in_document|].
  split; [apply set_option_in_document|].
  split; [apply set_option_in_document | reflexivity].
Qed.

(** ** The direction of an order *)

Section Direction.
Import TermsAggregation.

Lemma lower_upper_ascii (c : ascii) :
  lower_ascii (upper_ascii c) = lower_ascii c.
Proof.
  destruct c as [[] [] [] [] [] [] [] []]; reflexivity.
Qed.

(** Lowering forgets the letter-casing. *)
Lemma toLowerCase_recase (s : string) :
  forall mask, toLowerCase (recase mask s) = toLowerCase s.
Proof.
  induction s as [|c rest IH]; intros mask; [now destruct mask|].
  destruct mask as [|[] mask]; simpl; try reflexivity.
  - now rewrite lower_upper_ascii, IH.
  - now rewrite IH.
Qed.

(** An allowed value passes in every letter-casing, and comes back in
    lower case. *)
Lemma validateEnum_accepts (param v1 v2 allowed : string) (mask : list bool) :
  toLowerCase v1 = v1 -> toLowerCase v2 = v2 ->
  allowed = v1 \/ allowed = v2 ->
  validateEnum param v1 v2 (VStr (recase mask allowed)) = Normal allowed.
Proof.
  intros H1 H2 Hin. unfold validateEnum.
  rewrite toLowerCase_recase.
  destruct Hin as [->| ->].
  - now rewrite H1, String.eqb_refl.
  - rewrite H2, String.eqb_refl, orb_true_r. reflexivity.
Qed.

(** Anything else is refused with the message that names the parameter
    and the two allowed values. *)
Lemma validateEnum_refuses (param v1 v2 : string) (v : value) :
  (forall s, v = VStr s -> toLowerCase s <> v1 /\ toLowerCase s <> v2) ->
  validateEnum param v1 v2 v
  = Throw (Error ("The '" ++ param ++ "' parameter should be one of '"
                    ++ v1 ++ "' or '" ++ v2 ++ "'")).
Proof.
  intros Hno. destruct v; try reflexivity.
  destruct (Hno s eq_refl) as [Hn1 Hn2]. unfold validateEnum.
  destruct (String.eqb_spec (toLowerCase s) v1); [contradiction|].
  destruct (String.eqb_spec (toLowerCase s) v2); [contradiction|].
  reflexivity.
Qed.

End Direction.

(** C7.  A direction that is [asc] or [desc] in any letter-casing is
    accepted (and stored in lower case); any other value that is passed,
    [null] included, is refused with the error message
    [The 'direction' parameter should be one of 'asc' or 'desc']; for any
    enumerated option of two lower-case values the validator accepts every
    letter-casing of either and refuses the rest with
    [The '<param>' parameter should be one of '<v1>' or '<v2>']. *)
Theorem direction_is_validated :
  (forall (field allowed : string) (mask : list bool),
      allowed = "asc" \/ allowed = "desc" ->
      TermsAggregation.order field
        (Some (VStr (TermsAggregation.recase mask allowed)))
      = Normal (VObj [(field, VStr allowed)]))
  /\ (forall (field : string) (direction : value),
         (forall s, direction = VStr s ->
            TermsAggregation.toLowerCase s <> "asc" /\
            TermsAggregation.toLowerCase s <> "desc") ->
         TermsAggregation.order field (Some direction)
         = Throw (Error "The 'direction' parameter should be one of 'asc' or 'desc'"))
  /\ (forall field : string,
         TermsAggregation.order field (Some VNull)
         = Throw (Error "The 'direction' parameter should be one of 'asc' or 'desc'"))
  /\ (forall (param v1 v2 allowed : string) (mask : list bool),
         TermsAggregation.toLowerCase v1 = v1 ->
         TermsAggregation.toLowerCase v2 = v2 ->
         allowed = v1 \/ allowed = v2 ->
         TermsAggregation.validateEnum param v1 v2
           (VStr (TermsAggregation.recase mask allowed))
         = Normal allowed)
  /\ (forall (param v1 v2 : string) (v : value),
         (forall s, v = VStr s ->
            TermsAggregation.toLowerCase s <> v1 /\
            TermsAggregation.toLowerCase s <> v2) ->
         TermsAggregation.validateEnum param v1 v2 v
         = Throw (Error ("The '" ++ param ++ "' parameter should be one of '"
                           ++ v1 ++ "' or '" ++ v2 ++ "'"))).
Proof.
  split; [|split; [|split; [|split]]].
  - intros field allowed mask Hin. unfold TermsAggregation.order.
    rewrite validateEnum_accepts by (reflexivity || assumption). reflexivity.
  - intros field direction Hno. unfold TermsAggregation.order.
    rewrite validateEnum_refuses by assumption. reflexivity.
  - reflexivity.
  - exact validateEnum_accepts.
  - exact validateEnum_refuses.
Qed.

(** C7 on the calls of the test: [asc], [ASC], [desc], [DESC] pass,
    [invalid_direction] and [null] are refused with the message. *)
Lemma direction_is_validated_witness :
  TermsAggregation.order "my_field" (Some (VStr "asc"))
  = Normal (VObj [("my_field", VStr "asc")]) /\
  TermsAggregation.order "my_field" (Some (VStr "ASC"))
  = Normal (VObj [("my_field", VStr "asc")]) /\
  TermsAggregation.order "my_field" (Some (VStr "desc"))
  = Normal (VObj [("my_field", VStr "desc")]) /\
  TermsAggregation.order "my_field" (Some (VStr "DESC"))
  = Normal (VObj [("my_field", VStr "desc")]) /\
  TermsAggregation.order "my_field" (Some (VStr "invalid_direction"))
  = Throw (Error "The 'direction' parameter should be one of 'asc' or 'desc'") /\
  TermsAggregation.order "my_field" (Some VNull)
  = Throw (Error "The 'direction' parameter should be one of 'asc' or 'desc'").
Proof.
  destruct direction_is_validated as (Hok & Hbad & Hnull & _ & _).
  split; [|split; [|split; [|split; [|split]]]].
  - apply (Hok "my_field" "asc" []). now left.
  - apply (Hok "my_field" "asc" [true; true; true]). now left.
  - apply (Hok "my_field" "desc" []). now right.
  - apply (Hok "my_field" "desc" [true; true; true; true]). now right.
  - apply (Hbad "my_field" (VStr "invalid_direction")).
    intros s Hs. inversion Hs; subst s. split; discriminate.
  - apply Hnull.
Defined.

(** ** Clause setters: what is stored, what is refused *)

Section Accumulation.
Import lodash.

Lemma setters_by_key :
  BoolQuery.must = BoolQuery.setter_of "must" /\
  BoolQuery.filter = BoolQuery.setter_of "filter" /\
  BoolQuery.mustNot = BoolQuery.setter_of "must_not" /\
  BoolQuery.should = BoolQuery.setter_of "should".
Proof. repeat split. Qed.

Lemma set_get_same (o : obj) (k : string) :
  has o k = true -> set o k (get o k) = o.
Proof.
  unfold get. induction o as [|[k0 v0] rest IH]; simpl; [discriminate|].
  destruct (String.eqb k0 k); [reflexivity|].
  intros H. now rewrite IH.
Qed.

Lemma set_set_same (o : obj) (k : string) (v v' : value) :
  set (set o k v) k v' = set o k v'.
Proof.
  induction o as [|[k0 v0] rest IH]; simpl.
  - now rewrite String.eqb_refl.
  - destruct (String.eqb k0 k) eqn:E; simpl; rewrite E; [reflexivity|].
    now rewrite IH.
Qed.

(** A call with one [Query] appends it and returns the instance. *)
Lemma setter_of_Query (clause : string) (c : Query) (this : Query)
      (items : list value) :
  get (ensured (_queryOpts this) clause) clause = VArr items ->
  BoolQuery.setter_of clause (VQuery c) this
  = (with_queryOpts this
       (set (ensured (_queryOpts this) clause) clause (VArr (items ++ [VQuery c]))),
     Normal ReturnThis).
Proof.
  intros Hget. unfold BoolQuery.setter_of, bind.
  now rewrite (_addQueries_Query clause c this items Hget).
Qed.

(** Calls with one [Query] each, on a clause that is there: the children
    are appended behind those already held, in the order of the calls. *)
Lemma single_calls_append (clause : string) (cls : qclass) (type : string) :
  forall (children : list Query) (o : obj) (items : list value),
    get o clause = VArr items ->
    fold_left (fun q c => fst (BoolQuery.setter_of clause (VQuery c) q))
              children (mkQuery cls type o)
    = mkQuery cls type (set o clause (VArr (items ++ map VQuery children))).
Proof.
  induction children as [|c children IH]; intros o items Hget; simpl.
  - rewrite app_nil_r, <- Hget, set_get_same; [reflexivity|].
    eapply get_array_has; eassumption.
  - pose proof (get_array_has _ _ _ Hget) as Hhas.
    assert (Hstep : BoolQuery.setter_of clause (VQuery c) (mkQuery cls type o)
                    = (mkQuery cls type (set o clause (VArr (items ++ [VQuery c]))),
                       Normal ReturnThis)).
    { rewrite (setter_of_Query clause c (mkQuery cls type o) items);
        cbn [_queryOpts]; rewrite (ensured_present _ _ Hhas);
        [reflexivity | exact Hget]. }
    rewrite Hstep. cbn [fst].
    rewrite (IH _ (items ++ [VQuery c])) by apply get_set_same.
    now rewrite set_set_same, <- app_assoc.
Qed.

(** The same on a clause that is not there yet: it is created by the
    first call and then holds exactly the children, in call order. *)
Lemma single_calls_accumulate (clause : string) (cls : qclass) (type : string)
      (child : Query) (children : list Query) (o : obj) :
  has o clause = false ->
  fold_left (fun q c => fst (BoolQuery.setter_of clause (VQuery c) q))
            (child :: children) (mkQuery cls type o)
  = mkQuery cls type (o ++ [(clause, VArr (map VQuery (child :: children)))]).
Proof.
  intros Habs. cbn [fold_left].
  assert (Hstep : BoolQuery.setter_of clause (VQuery child) (mkQuery cls type o)
                  = (mkQuery cls type (set o clause (VArr [VQuery child])),
                     Normal ReturnThis)).
  { rewrite (setter_of_Query clause child (mkQuery cls type o) []);
      cbn [_queryOpts]; unfold ensured; rewrite Habs;
      [now rewrite set_set_same | apply get_set_same]. }
  rewrite Hstep. cbn [fst].
  rewrite (single_calls_append clause cls type children _ [VQuery child])
    by apply get_set_same.
  rewrite set_set_same, set_absent by assumption. reflexivity.
Qed.

(** A refused call on a clause that is there changes nothing. *)
Lemma refused_on_present_clause (clause : string) (queries : value) (this : Query) :
  has (_queryOpts this) clause = true ->
  snd (BoolQuery._addQueries clause queries this) = Throw TypeError ->
  fst (BoolQuery._addQueries clause queries this) = this.
Proof.
  intros Hhas Hthrow.
  destruct (_addQueries_state clause queries this)
    as [Heq|(c & items & -> & Hget & _)].
  - rewrite Heq, ensured_present by assumption. apply with_queryOpts_same.
  - rewrite (_addQueries_Query clause c this items Hget) in Hthrow.
    discriminate.
Qed.

End Accumulation.

(** C2: an empty clause is serialized.  [must([])] on a new bool query
    completes normally and adds no child, a refused [must('x')] adds none
    either; both leave the key [must] with an empty array, and the document
    is [{bool: {must: []}}].  Whatever the instance, the clause and the
    argument, the clause's key is there after the call. *)
Theorem empty_clause_is_serialized :
  BoolQuery.must (VArr []) BoolQuery.constructor
  = (mkQuery BoolQueryC "bool" [("must", VArr [])], Normal ReturnThis) /\
  BoolQuery.must (VStr "x") BoolQuery.constructor
  = (mkQuery BoolQueryC "bool" [("must", VArr [])], Throw TypeError) /\
  toJSON (mkQuery BoolQueryC "bool" [("must", VArr [])])
  = VObj [("bool", VObj [("must", VArr [])])] /\
  (forall (clause : string) (queries : value) (this : Query),
      lodash.has
        (_queryOpts (fst (BoolQuery._addQueries clause queries this))) clause
      = true).
Proof.
  split; [reflexivity|]. split; [reflexivity|]. split; [reflexivity|].
  intros clause queries this.
  destruct (_addQueries_state clause queries this)
    as [->|(c & items & _ & _ & ->)];
    destruct this as [cls type o]; cbn [with_queryOpts _queryOpts].
  - apply has_ensured.
  - apply has_set_same.
Qed.

(** C3: a refused call is partly applied.  On a new bool query, [must] of a
    string, and [must] of an array that holds a [Query] and a string, throw
    a [TypeError] and leave the key [must] behind: the options are not the
    ones from before the call, and neither is the document. *)
Theorem refused_call_leaves_empty_clause :
  forall child : Query,
    BoolQuery.must (VStr "x") BoolQuery.constructor
    = (mkQuery BoolQueryC "bool" [("must", VArr [])], Throw TypeError) /\
    BoolQuery.must (VArr [VQuery child; VStr "x"]) BoolQuery.constructor
    = (mkQuery BoolQueryC "bool" [("must", VArr [])], Throw TypeError) /\
    _queryOpts BoolQuery.constructor = [] /\
    mkQuery BoolQueryC "bool" [("must", VArr [])] <> BoolQuery.constructor /\
    toJSON BoolQuery.constructor = VObj [("bool", VObj [])] /\
    toJSON (mkQuery BoolQueryC "bool" [("must", VArr [])])
    = VObj [("bool", VObj [("must", VArr [])])].
Proof. intros child. repeat split. discriminate. Qed.

(** C6: an array of queries is refused.  Whatever the clause and the
    instance, a call with a non-empty array throws a [TypeError], also when
    every element is a [Query]; [must([child])] on a new bool query throws
    and stores no child.  A single [Query] is accepted, a single value that
    is no [Query] is refused. *)
Theorem array_of_queries_is_refused :
  forall (clause : string) (child : Query) (others : list Query) (this : Query),
    snd (BoolQuery._addQueries clause (VArr (map VQuery (child :: others))) this)
    = Throw TypeError /\
    BoolQuery.must (VArr [VQuery child]) BoolQuery.constructor
    = (mkQuery BoolQueryC "bool" [("must", VArr [])], Throw TypeError) /\
    BoolQuery.must (VQuery child) BoolQuery.constructor
    = (mkQuery BoolQueryC "bool" [("must", VArr [VQuery child])], Normal ReturnThis) /\
    BoolQuery.must (VStr "x") BoolQuery.constructor
    = (mkQuery BoolQueryC "bool" [("must", VArr [])], Throw TypeError).
Proof.
  intros clause child others this. split; [|repeat split].
  cbn [map]. now rewrite _addQueries_array.
Qed.

(** C9: a call with an array adds nothing.  [must([child1, child2])] on a
    new bool query throws and the clause holds no child; after
    [must(child1)], the call [must([child2])] throws and the clause still
    holds [child1] alone.  Calls with one [Query] each do accumulate, in
    call order, and return the instance. *)
Theorem array_call_adds_nothing :
  forall child1 child2 : Query,
    BoolQuery.must (VArr [VQuery child1; VQuery child2]) BoolQuery.constructor
    = (mkQuery BoolQueryC "bool" [("must", VArr [])], Throw TypeError) /\
    BoolQuery.must (VArr [VQuery child2])
      (fst (BoolQuery.must (VQuery child1) BoolQuery.constructor))
    = (mkQuery BoolQueryC "bool" [("must", VArr [VQuery child1])], Throw TypeError) /\
    BoolQuery.must (VQuery child2)
      (fst (BoolQuery.must (VQuery child1) BoolQuery.constructor))
    = (mkQuery BoolQueryC "bool" [("must", VArr [VQuery child1; VQuery child2])],
       Normal ReturnThis).
Proof. intros child1 child2. repeat split. Qed.

(* ===================================================================== *)
(** * Further properties of the two classes *)
(* ===================================================================== *)

(** ** Bool query: options that are no clause *)

Section ScalarOptions.
Import lodash.

Lemma scalar_keys_are_no_clause :
  ~ In "disable_coord" clauses /\
  ~ In "minimum_should_match" clauses /\
  ~ In "adjust_pure_negative" clauses.
Proof. unfold clauses; simpl; intuition discriminate. Qed.

(** Writing an option that is not one of the four clauses leaves the
    document of a bool query as it was. *)
Lemma toJSON_set_no_clause (type : string) (o : obj) (k : string) (v : value) :
  ~ In k clauses ->
  toJSON (mkQuery BoolQueryC type (set o k v)) = toJSON (mkQuery BoolQueryC type o).
Proof.
  intros Hk. apply toJSON_BoolQuery_ext. intros clause Hin.
  assert (Hne : clause <> k) by (intros ->; contradiction).
  now rewrite has_set_other, get_set_other.
Qed.

Lemma keys_set (o : obj) (k : string) (v : value) :
  keys (set o k v) = keys o ++ (if has o k then [] else [k]).
Proof.
  unfold keys. induction o as [|[k0 v0] rest IH]; simpl; [reflexivity|].
  destruct (String.eqb k0 k); simpl.
  - now rewrite app_nil_r.
  - now rewrite IH.
Qed.

End ScalarOptions.

(** X1.  [disableCoord], [minimumShouldMatch] and [adjustPureNegative]
    store their argument and return the instance, but [toJSON] of a bool
    query walks the four clauses only: the document after any of the three
    calls is the document from before, whatever the argument. *)
Theorem scalar_options_not_serialized :
  forall (type : string) (o : obj) (v : value),
    let this := mkQuery BoolQueryC type o in
    BoolQuery.disableCoord v this
    = (mkQuery BoolQueryC type (set o "disable_coord" v), Normal ReturnThis) /\
    BoolQuery.minimumShouldMatch v this
    = (mkQuery BoolQueryC type (set o "minimum_should_match" v), Normal ReturnThis) /\
    BoolQuery.adjustPureNegative v this
    = (mkQuery BoolQueryC type (set o "adjust_pure_negative" v), Normal ReturnThis) /\
    toJSON (fst (BoolQuery.disableCoord v this)) = toJSON this /\
    toJSON (fst (BoolQuery.minimumShouldMatch v this)) = toJSON this /\
    toJSON (fst (BoolQuery.adjustPureNegative v this)) = toJSON this.
Proof.
  intros type o v this. subst this.
  destruct scalar_keys_are_no_clause as (H1 & H2 & H3).
  split; [reflexivity|]. split; [reflexivity|]. split; [reflexivity|].
  cbn [BoolQuery.disableCoord BoolQuery.minimumShouldMatch
       BoolQuery.adjustPureNegative bind write_queryOpt ret fst
       with_queryOpts _queryOpts cls_of type_of].
  split; [|split]; now apply toJSON_set_no_clause.
Qed.

(** X2.  A second call of a scalar setter replaces what the first stored:
    the instance is the one the second call alone would have given.  This
    holds for the three of the bool query and for [childType],
    [minChildren] and [maxChildren] of has_child. *)
Theorem scalar_setters_overwrite :
  forall (v v' : value) (this : Query),
    fst (BoolQuery.disableCoord v' (fst (BoolQuery.disableCoord v this)))
    = fst (BoolQuery.disableCoord v' this) /\
    fst (BoolQuery.minimumShouldMatch v' (fst (BoolQuery.minimumShouldMatch v this)))
    = fst (BoolQuery.minimumShouldMatch v' this) /\
    fst (BoolQuery.adjustPureNegative v' (fst (BoolQuery.adjustPureNegative v this)))
    = fst (BoolQuery.adjustPureNegative v' this) /\
    fst (HasChildQuery.childType v' (fst (HasChildQuery.childType v this)))
    = fst (HasChildQuery.childType v' this) /\
    fst (HasChildQuery.minChildren v' (fst (HasChildQuery.minChildren v this)))
    = fst (HasChildQuery.minChildren v' this) /\
    fst (HasChildQuery.maxChildren v' (fst (HasChildQuery.maxChildren v this)))
    = fst (HasChildQuery.maxChildren v' this).
Proof.
  intros v v' [cls type o]. cbn.
  repeat split; now rewrite set_set_same.
Qed.

(** ** Bool query: one call of a clause setter *)

Section OneCall.
Import lodash.

Lemma setter_of_unfold (clause : string) (queries : value) (this : Query) :
  BoolQuery.setter_of clause queries this
  = (fst (BoolQuery._addQueries clause queries this),
     match snd (BoolQuery._addQueries clause queries this) with
     | Normal _ => Normal ReturnThis
     | Throw e => Throw e
     end).
Proof.
  unfold BoolQuery.setter_of, bind, ret.
  now destruct (BoolQuery._addQueries clause queries this) as [this' [[]|e]].
Qed.

Lemma has_ensured_other (o : obj) (clause k : string) :
  k <> clause -> has (ensured o clause) k = has o k.
Proof.
  intros Hne. unfold ensured. destruct (has o clause); [reflexivity|].
  now apply has_set_other.
Qed.

Lemma get_ensured_other (o : obj) (clause k : string) :
  k <> clause -> get (ensured o clause) k = get o k.
Proof.
  intros Hne. unfold ensured. destruct (has o clause); [reflexivity|].
  now apply get_set_other.
Qed.

Lemma keys_ensured (o : obj) (clause : string) :
  keys (ensured o clause) = keys o ++ (if has o clause then [] else [clause]).
Proof.
  unfold ensured. destruct (has o clause) eqn:E.
  - now rewrite app_nil_r.
  - now rewrite keys_set, E.
Qed.

(** Whatever [_addQueries] throws is a [TypeError]. *)
Lemma _addQueries_throws_TypeError (clause : string) (queries : value)
      (this : Query) (e : error) :
  snd (BoolQuery._addQueries clause queries this) = Throw e -> e = TypeError.
Proof.
  rewrite _addQueries_unfold.
  destruct this as [cls type o]. cbn [_queryOpts with_queryOpts cls_of type_of].
  destruct queries as [| | | | |[|x xs]| |c];
    try (cbn; congruence).
  unfold BoolQuery._addQuery, bind, util.checkType, ret, push_queryOpt.
  cbn [with_queryOpts _queryOpts cls_of type_of].
  destruct (get (ensured o clause) clause); cbn [snd]; congruence.
Qed.

End OneCall.

(** X3.  A call of a clause setter touches its own clause only: whatever
    the argument and whether or not the call throws, class and type tag
    stay, and every option under another key is there or not as before and
    holds the value it held. *)
Theorem clause_setter_touches_own_clause_only :
  forall (clause : string) (queries : value) (this : Query) (k : string),
    k <> clause ->
    let this' := fst (BoolQuery._addQueries clause queries this) in
    cls_of this' = cls_of this /\
    type_of this' = type_of this /\
    lodash.has (_queryOpts this') k = lodash.has (_queryOpts this) k /\
    get (_queryOpts this') k = get (_queryOpts this) k.
Proof.
  intros clause queries this k Hne this'. subst this'.
  destruct (_addQueries_state clause queries this)
    as [->|(c & items & _ & _ & ->)];
    destruct this as [cls type o];
    cbn [with_queryOpts _queryOpts cls_of type_of].
  - now rewrite has_ensured_other, get_ensured_other.
  - now rewrite has_set_other, get_set_other, has_ensured_other,
      get_ensured_other.
Qed.

(** X3 on [should] called with a query, on an instance that holds a [must]
    child and a minimum: both are as they were afterwards. *)
Lemma clause_setter_touches_own_clause_only_witness :
  let child := VQuery (mkQuery QueryC "match_all" []) in
  let this :=
    mkQuery BoolQueryC "bool"
      [("must", VArr [child]); ("minimum_should_match", VNum 1)] in
  let this' := fst (BoolQuery._addQueries "should" child this) in
  get (_queryOpts this') "must" = VArr [child] /\
  get (_queryOpts this') "minimum_should_match" = VNum 1 /\
  get (_queryOpts this') "should" = VArr [child].
Proof.
  intros child this this'.
  destruct (clause_setter_touches_own_clause_only "should" child this "must")
    as (_ & _ & _ & Hmust); [discriminate|].
  destruct (clause_setter_touches_own_clause_only "should" child this
              "minimum_should_match")
    as (_ & _ & _ & Hmin); [discriminate|].
  split; [exact Hmust|]. split; [exact Hmin|]. reflexivity.
Defined.

(** X4.  On an instance whose clause keys hold arrays of queries, a clause
    setter returns the instance exactly when its argument is one [Query] or
    the empty array; for every other argument, a non-empty array included,
    it throws a [TypeError]. *)
Theorem clause_setter_outcome :
  forall (clause : string) (queries : value) (this : Query),
    In clause clauses ->
    clause_arrays (_queryOpts this) ->
    snd (BoolQuery.setter_of clause queries this)
    = match queries with
      | VQuery _ => Normal ReturnThis
      | VArr [] => Normal ReturnThis
      | _ => Throw TypeError
      end.
Proof.
  intros clause queries this Hin Hshape.
  destruct queries as [| | | | |[|x xs]| |c];
    try (rewrite setter_of_unfold, _addQueries_unfold; reflexivity).
  destruct (clause_arrays_ensured _ clause Hshape clause Hin
              (has_ensured _ clause)) as [children Hget].
  now rewrite (setter_of_Query clause c this _ Hget).
Qed.

(** X4 on a new bool query: [filter] of a query returns the instance,
    [filter] of a number throws. *)
Lemma clause_setter_outcome_witness :
  snd (BoolQuery.filter (VQuery (mkQuery QueryC "match_all" [])) BoolQuery.constructor)
  = Normal ReturnThis /\
  snd (BoolQuery.filter (VNum 3) BoolQuery.constructor) = Throw TypeError.
Proof.
  split.
  - apply (clause_setter_outcome "filter"
             (VQuery (mkQuery QueryC "match_all" [])) BoolQuery.constructor).
    + simpl. tauto.
    + intros clause _ Hhas. discriminate Hhas.
  - apply (clause_setter_outcome "filter" (VNum 3) BoolQuery.constructor).
    + simpl. tauto.
    + intros clause _ Hhas. discriminate Hhas.
Defined.

(** X5.  A clause setter that throws on a clause whose key is already
    there leaves the instance exactly as it was, and what it throws is a
    [TypeError]. *)
Theorem refused_call_on_present_clause_is_undone :
  forall (clause : string) (queries : value) (this : Query) (e : error),
    lodash.has (_queryOpts this) clause = true ->
    snd (BoolQuery.setter_of clause queries this) = Throw e ->
    fst (BoolQuery.setter_of clause queries this) = this /\ e = TypeError.
Proof.
  intros clause queries this e Hhas Hthrow.
  rewrite setter_of_unfold in *. cbn [fst snd] in *.
  destruct (snd (BoolQuery._addQueries clause queries this)) as [[]|e'] eqn:E;
    [discriminate|].
  inversion Hthrow; subst e'.
  pose proof (_addQueries_throws_TypeError clause queries this e E) as ->.
  split; [|reflexivity].
  now apply refused_on_present_clause.
Qed.

(** X5 on an instance that holds one [must] child: [must] of a string
    throws and the child is still the only one. *)
Lemma refused_call_on_present_clause_is_undone_witness :
  let this :=
    mkQuery BoolQueryC "bool" [("must", VArr [VQuery (mkQuery QueryC "match_all" [])])] in
  fst (BoolQuery.must (VStr "x") this) = this.
Proof.
  intros this.
  apply (refused_call_on_present_clause_is_undone "must" (VStr "x") this TypeError);
    reflexivity.
Defined.

(** X6.  A clause setter called with the empty array on a clause whose key
    is already there changes nothing and returns the instance. *)
Theorem empty_array_on_present_clause_is_noop :
  forall (clause : string) (this : Query),
    lodash.has (_queryOpts this) clause = true ->
    BoolQuery.setter_of clause (VArr []) this = (this, Normal ReturnThis).
Proof.
  intros clause this Hhas.
  rewrite setter_of_unfold, _addQueries_empty. cbn [fst snd].
  now rewrite ensured_present, with_queryOpts_same.
Qed.

(** X6 on an instance that holds one [should] child. *)
Lemma empty_array_on_present_clause_is_noop_witness :
  let this :=
    mkQuery BoolQueryC "bool" [("should", VArr [VQuery (mkQuery QueryC "match_all" [])])] in
  BoolQuery.should (VArr []) this = (this, Normal ReturnThis).
Proof.
  intros this.
  apply (empty_array_on_present_clause_is_noop "should" this). reflexivity.
Defined.

(** X7.  [_addQuery] checks before it pushes: whenever it throws, for an
    argument that is no [Query] or for a clause key that holds no array,
    the instance is exactly as it was, and what it throws is a
    [TypeError]; called for a clause whose key is not there, it throws
    even for a [Query]. *)
Theorem _addQuery_throws_without_change :
  (forall (clause : string) (query : value) (this : Query) (e : error),
      snd (BoolQuery._addQuery clause query this) = Throw e ->
      fst (BoolQuery._addQuery clause query this) = this /\ e = TypeError)
  /\ (forall (clause : string) (child : Query) (this : Query),
         lodash.has (_queryOpts this) clause = false ->
         BoolQuery._addQuery clause (VQuery child) this = (this, Throw TypeError)).
Proof.
  split.
  - intros clause query this e.
    unfold BoolQuery._addQuery, bind, util.checkType, ret, throw, push_queryOpt.
    destruct query; cbn [fst snd]; try (intros H; inversion H; now split).
    destruct (get (_queryOpts this) clause); cbn [fst snd];
      intros H; inversion H; now split.
  - intros clause child this Habs.
    unfold BoolQuery._addQuery, bind, util.checkType, ret, push_queryOpt.
    now rewrite (get_absent _ _ Habs).
Qed.

(** X7 on a new bool query: [_addQuery] of a query for [must], which has
    no key yet, throws and leaves the options empty. *)
Lemma _addQuery_throws_without_change_witness :
  BoolQuery._addQuery "must" (VQuery (mkQuery QueryC "match_all" []))
    BoolQuery.constructor
  = (BoolQuery.constructor, Throw TypeError) /\
  fst (BoolQuery._addQuery "must" (VNum 0) BoolQuery.constructor)
  = BoolQuery.constructor.
Proof.
  destruct _addQuery_throws_without_change as [Hthrow Habsent].
  split.
  - apply Habsent. reflexivity.
  - apply (Hthrow "must" (VNum 0) BoolQuery.constructor TypeError). reflexivity.
Defined.

(** X8.  The elements of an array passed to a clause setter are never
    looked at: two calls with non-empty arrays end alike, whatever the
    arrays hold and however long they are. *)
Theorem array_elements_are_not_looked_at :
  forall (clause : string) (first first' : value) (others others' : list value)
         (this : Query),
    BoolQuery._addQueries clause (VArr (first :: others)) this
    = BoolQuery._addQueries clause (VArr (first' :: others')) this.
Proof.
  intros. now rewrite !_addQueries_array.
Qed.

(** ** Bool query: any sequence of calls *)

Section AnySequence.
Import lodash.

Lemma _addQueries_appends (clause0 : string) (queries : value) (this : Query)
      (clause : string) (items : list value) :
  get (_queryOpts this) clause = VArr items ->
  exists more,
    get (_queryOpts (fst (BoolQuery._addQueries clause0 queries this))) clause
    = VArr (items ++ more).
Proof.
  intros Hget. pose proof (get_array_has _ _ _ Hget) as Hhas.
  destruct (_addQueries_state clause0 queries this)
    as [->|(c & items0 & _ & Hget0 & ->)];
    destruct this as [cls type o];
    cbn [with_queryOpts _queryOpts cls_of type_of] in *;
    destruct (string_dec clause clause0) as [->|Hne].
  - exists []. now rewrite ensured_present, app_nil_r.
  - exists []. now rewrite get_ensured_other, app_nil_r.
  - exists [VQuery c]. rewrite get_set_same.
    rewrite ensured_present in Hget0 by assumption. congruence.
  - exists []. now rewrite get_set_other, get_ensured_other, app_nil_r.
Qed.

Lemma perform_appends (c : BoolQuery.call) (this : Query) (clause : string)
      (items : list value) :
  In clause clauses ->
  get (_queryOpts this) clause = VArr items ->
  exists more,
    get (_queryOpts (fst (BoolQuery.perform c this))) clause = VArr (items ++ more).
Proof.
  intros Hin Hget.
  destruct scalar_keys_are_no_clause as (H1 & H2 & H3).
  destruct c; cbn [BoolQuery.perform];
    unfold BoolQuery.must, BoolQuery.filter, BoolQuery.mustNot, BoolQuery.should,
      BoolQuery.disableCoord, BoolQuery.minimumShouldMatch,
      BoolQuery.adjustPureNegative;
    rewrite fst_then_ReturnThis;
    try (now apply _addQueries_appends);
    destruct this as [cls type o];
    cbn [write_queryOpt fst with_queryOpts _queryOpts cls_of type_of] in *;
    exists []; rewrite app_nil_r, get_set_other; try assumption;
    intros ->; contradiction.
Qed.

Lemma _addQueries_keys (clause : string) (queries : value) (this : Query) :
  keys (_queryOpts (fst (BoolQuery._addQueries clause queries this)))
  = keys (_queryOpts this)
    ++ (if has (_queryOpts this) clause then [] else [clause]).
Proof.
  destruct (_addQueries_state clause queries this)
    as [->|(c & items & _ & _ & ->)];
    destruct this as [cls type o];
    cbn [with_queryOpts _queryOpts cls_of type_of].
  - apply keys_ensured.
  - now rewrite keys_set, has_ensured, app_nil_r, keys_ensured.
Qed.

Lemma perform_keys (c : BoolQuery.call) (this : Query) :
  exists added,
    keys (_queryOpts (fst (BoolQuery.perform c this)))
    = keys (_queryOpts this) ++ added.
Proof.
  destruct c; cbn [BoolQuery.perform];
    unfold BoolQuery.must, BoolQuery.filter, BoolQuery.mustNot, BoolQuery.should,
      BoolQuery.disableCoord, BoolQuery.minimumShouldMatch,
      BoolQuery.adjustPureNegative;
    rewrite fst_then_ReturnThis;
    try (eexists; apply _addQueries_keys);
    destruct this as [cls type o];
    cbn [write_queryOpt fst with_queryOpts _queryOpts cls_of type_of];
    eexists; apply keys_set.
Qed.

End AnySequence.

(** X9.  The children of a clause are only ever appended to: whatever
    calls follow, with whatever arguments and whether or not they throw,
    the array a clause holds now is a prefix of the array it holds
    afterwards.  No call removes, replaces or reorders a child. *)
Theorem children_are_only_appended :
  forall (calls : list BoolQuery.call) (this : Query) (clause : string)
         (items : list value),
    In clause clauses ->
    get (_queryOpts this) clause = VArr items ->
    exists more,
      get (_queryOpts (BoolQuery.after calls this)) clause = VArr (items ++ more).
Proof.
  unfold BoolQuery.after.
  induction calls as [|c calls IH]; intros this clause items Hin Hget; simpl.
  - exists []. now rewrite app_nil_r.
  - destruct (perform_appends c this clause items Hin Hget) as [more1 H1].
    destruct (IH _ clause _ Hin H1) as [more2 H2].
    exists (more1 ++ more2). now rewrite app_assoc.
Qed.

(** X9 on an instance with one [must] child, followed by a refused call, a
    call on another clause, a scalar setter and a second [must]. *)
Lemma children_are_only_appended_witness :
  let a := VQuery (mkQuery QueryC "match_all" []) in
  let b := VQuery (mkQuery QueryC "term" [("user", VStr "kimchy")]) in
  let this := mkQuery BoolQueryC "bool" [("must", VArr [a])] in
  let calls :=
    [BoolQuery.Must (VStr "x"); BoolQuery.Should b;
     BoolQuery.MinimumShouldMatch (VNum 1); BoolQuery.Must b] in
  (exists more,
      get (_queryOpts (BoolQuery.after calls this)) "must" = VArr ([a] ++ more))
  /\ get (_queryOpts (BoolQuery.after calls this)) "must" = VArr [a; b].
Proof.
  intros a b this calls. split; [|reflexivity].
  apply (children_are_only_appended calls this "must" [a]).
  - simpl. tauto.
  - reflexivity.
Defined.

(** X10.  The options keep the order of first use: after any sequence of
    calls the keys from before are still there, in the same order, and the
    new keys follow them.  No call removes an option. *)
Theorem option_keys_are_only_appended :
  forall (calls : list BoolQuery.call) (this : Query),
    exists added,
      keys (_queryOpts (BoolQuery.after calls this))
      = keys (_queryOpts this) ++ added.
Proof.
  unfold BoolQuery.after.
  induction calls as [|c calls IH]; intros this; simpl.
  - exists []. now rewrite app_nil_r.
  - destruct (perform_keys c this) as [added1 H1].
    destruct (IH (fst (BoolQuery.perform c this))) as [added2 H2].
    exists (added1 ++ added2). now rewrite H2, H1, app_assoc.
Qed.

(** X11.  Whatever calls are made on a new bool query, with whatever
    arguments, the type tag stays [bool] and each of the four clauses is
    either not there or holds an array whose elements are all [Query]
    instances: nothing else is ever stored in a clause. *)
Theorem clauses_hold_queries_only :
  forall (calls : list BoolQuery.call) (clause : string),
    In clause clauses ->
    let this := BoolQuery.after calls BoolQuery.constructor in
    cls_of this = BoolQueryC /\
    type_of this = "bool" /\
    ((lodash.has (_queryOpts this) clause = false /\
      get (_queryOpts this) clause = VUndefined)
     \/ exists children, get (_queryOpts this) clause = VArr (map VQuery children)).
Proof.
  intros calls clause Hin this. subst this.
  destruct (after_constructor calls) as (o & -> & Hshape).
  cbn [cls_of type_of _queryOpts].
  split; [reflexivity|]. split; [reflexivity|].
  destruct (lodash.has o clause) eqn:E.
  - right. now apply Hshape.
  - left. split; [reflexivity | now apply get_absent].
Qed.

(** X11 on calls that pass a number, an array with a string and a query. *)
Lemma clauses_hold_queries_only_witness :
  let a := mkQuery QueryC "match_all" [] in
  let this :=
    BoolQuery.after
      [BoolQuery.Must (VNum 7); BoolQuery.Must (VArr [VStr "x"]);
       BoolQuery.Must (VQuery a)]
      BoolQuery.constructor in
  type_of this = "bool" /\ get (_queryOpts this) "must" = VArr [VQuery a].
Proof.
  intros a this.
  destruct (clauses_hold_queries_only
              [BoolQuery.Must (VNum 7); BoolQuery.Must (VArr [VStr "x"]);
               BoolQuery.Must (VQuery a)] "must") as (_ & Htype & _).
  - simpl. tauto.
  - split; [exact Htype | reflexivity].
Defined.

(** X12.  Calls of one clause setter with one [Query] each, on a clause
    that was not there, add the clause as the last option, holding the
    children in call order; in the document the clause's entry is the
    child's document when there was one call and the array of the
    children's documents, in call order, when there were more. *)
Theorem single_calls_reach_the_document :
  forall (clause type : string) (o : obj) (child : Query) (children : list Query),
    In clause clauses ->
    lodash.has o clause = false ->
    let this' :=
      fold_left (fun q c => fst (BoolQuery.setter_of clause (VQuery c) q))
                (child :: children) (mkQuery BoolQueryC type o) in
    _queryOpts this' = o ++ [(clause, VArr (map VQuery (child :: children)))] /\
    exists cleanQryOpts,
      toJSON this' = VObj [(type, VObj cleanQryOpts)] /\
      get cleanQryOpts clause
      = match children with
        | [] => toJSON child
        | _ => VArr (map toJSON (child :: children))
        end.
Proof.
  intros clause type o child children Hin Habs this'. subst this'.
  rewrite (single_calls_accumulate clause BoolQueryC type child children o Habs).
  cbn [_queryOpts]. split; [reflexivity|].
  rewrite <- (set_absent o clause _ Habs).
  eexists. split; [apply toJSON_BoolQuery|].
  destruct (picked_entry (set o clause (VArr (map VQuery (child :: children))))
              clause Hin (has_set_same _ _ _)) as [_ Hg].
  rewrite Hg. unfold clause_document. rewrite get_set_same.
  destruct children as [|child2 rest]; [reflexivity|].
  change (unwrap (VArr (map VQuery (child :: child2 :: rest))))
    with (VArr (map VQuery (child :: child2 :: rest))).
  apply recursiveToJSON_queries.
Qed.

(** X12 on three [should] calls on an instance that holds a minimum. *)
Lemma single_calls_reach_the_document_witness :
  let a := mkQuery QueryC "match_all" [] in
  let b := mkQuery QueryC "term" [("user", VStr "kimchy")] in
  let c := mkQuery BoolQueryC "bool" [] in
  let this' :=
    fold_left (fun q c => fst (BoolQuery.setter_of "should" (VQuery c) q))
              [a; b; c]
              (mkQuery BoolQueryC "bool" [("minimum_should_match", VNum 2)]) in
  _queryOpts this'
  = [("minimum_should_match", VNum 2);
     ("should", VArr [VQuery a; VQuery b; VQuery c])] /\
  toJSON this'
  = VObj [("bool",
           VObj [("should",
                  VArr [VObj [("match_all", VObj [])];
                        VObj [("term", VObj [("user", VStr "kimchy")])];
                        VObj [("bool", VObj [])]])])].
Proof.
  intros a b c this'.
  destruct (single_calls_reach_the_document "should" "bool"
              [("minimum_should_match", VNum 2)] a [b; c])
    as (Hopts & doc & Hdoc & Hentry).
  - simpl. tauto.
  - reflexivity.
  - split; [exact Hopts | reflexivity].
Defined.

(** ** has_child: constructor and setters *)

(** X13.  The constructor, given a type that is neither [undefined] nor
    [null], leaves the instance as [childType] of that type would: the
    type is stored under [child_type]. *)
Theorem constructor_type_as_childType :
  forall (t : value) (this : Query),
    lodash.isNil t = false ->
    HasChildQuery.constructor_after_super t this
    = (fst (HasChildQuery.childType t this), Normal tt) /\
    lodash.has (_queryOpts (fst (HasChildQuery.constructor_after_super t this)))
      "child_type" = true /\
    get (_queryOpts (fst (HasChildQuery.constructor_after_super t this)))
      "child_type" = t.
Proof.
  intros t [cls type o] Hnil.
  unfold HasChildQuery.constructor_after_super. rewrite Hnil. cbn.
  split; [reflexivity|]. split; [apply has_set_same | apply get_set_same].
Qed.

(** X13 on the type ['comment'] and an instance that holds a query. *)
Lemma constructor_type_as_childType_witness :
  let this :=
    mkQuery HasChildQueryC "has_child"
      [("query", VQuery (mkQuery QueryC "match_all" []))] in
  HasChildQuery.constructor_after_super (VStr "comment") this
  = (mkQuery HasChildQueryC "has_child"
       [("query", VQuery (mkQuery QueryC "match_all" []));
        ("child_type", VStr "comment")],
     Normal tt).
Proof.
  intros this.
  destruct (constructor_type_as_childType (VStr "comment") this) as [H _];
    [reflexivity|].
  rewrite H. reflexivity.
Defined.

(** X14.  [childType], [minChildren] and [maxChildren] chain: called one
    after the other they return the instance, each option holds the
    argument of its setter, class and type tag stay, and every other
    option is as it was. *)
Theorem has_child_setters_chain :
  forall (t a b : value) (this : Query),
    let chained :=
      bind (HasChildQuery.childType t)
        (fun _ => bind (HasChildQuery.minChildren a)
                    (fun _ => HasChildQuery.maxChildren b)) in
    snd (chained this) = Normal ReturnThis /\
    cls_of (fst (chained this)) = cls_of this /\
    type_of (fst (chained this)) = type_of this /\
    get (_queryOpts (fst (chained this))) "child_type" = t /\
    get (_queryOpts (fst (chained this))) "min_children" = a /\
    get (_queryOpts (fst (chained this))) "max_children" = b /\
    forall k,
      k <> "child_type" -> k <> "min_children" -> k <> "max_children" ->
      lodash.has (_queryOpts (fst (chained this))) k = lodash.has (_queryOpts this) k /\
      get (_queryOpts (fst (chained this))) k = get (_queryOpts this) k.
Proof.
  intros t a b [cls type o] chained. subst chained. cbn.
  split; [reflexivity|]. split; [reflexivity|]. split; [reflexivity|].
  split; [|split; [|split]].
  - rewrite !get_set_other by discriminate. apply get_set_same.
  - rewrite get_set_other by discriminate. apply get_set_same.
  - apply get_set_same.
  - intros k H1 H2 H3.
    now rewrite !has_set_other, !get_set_other.
Qed.

(** X14 on an instance that holds a query. *)
Lemma has_child_setters_chain_witness :
  let q := VQuery (mkQuery QueryC "match_all" []) in
  let this := mkQuery HasChildQueryC "has_child" [("query", q)] in
  let this' :=
    fst (bind (HasChildQuery.childType (VStr "comment"))
           (fun _ => bind (HasChildQuery.minChildren (VNum 2))
                       (fun _ => HasChildQuery.maxChildren (VNum 10))) this) in
  get (_queryOpts this') "query" = q /\
  _queryOpts this'
  = [("query", q); ("child_type", VStr "comment");
     ("min_children", VNum 2); ("max_children", VNum 10)].
Proof.
  intros q this this'.
  destruct (has_child_setters_chain (VStr "comment") (VNum 2) (VNum 10) this)
    as (_ & _ & _ & _ & _ & _ & Hother).
  destruct (Hother "query") as [_ Hget]; try discriminate.
  split; [exact Hget | reflexivity].
Defined.
